(** * Stock portfolio risk analyzer: a model of [app.py] and its properties

    The program is one linear pipeline: normalise a comma-separated ticker
    string, fetch an adjusted-close price table, derive daily returns,
    compute annualised volatility, the correlation matrix and cumulative
    returns, and run a 50 x 252 random walk.

    Numbers are IEEE doubles in the program.  They are modelled here as exact
    reals extended with NaN and the two infinities, so that missing data and
    division by zero behave as they do in numpy; rounding, overflow,
    underflow and signed zeros are left out.  A statement below that needs
    the exactness of the reals says so; the others speak of shapes, of which
    cells are missing, of signs and of the order of the effects, which
    rounding does not change.

    Strings are byte strings; the normaliser is modelled on ASCII text, where
    [str.strip] and [str.upper] act byte by byte.

    Two behaviours depend on the installed pandas: the default of
    [pct_change] (line 48) and the meaning of [p[0]] on a Series labelled by
    tickers (line 128).  Both are selected by [fill_method]. *)

From Stdlib Require Import String Ascii.
From Stdlib Require Import Reals Lra Lia Bool Arith List.
Import ListNotations.

(** ** Extended reals standing for float64 *)

Module Float.

Inductive float64 : Type :=
| NaN
| Inf (neg : bool)
| Fin (r : R).

Definition Rzero (r : R) : bool := if Req_dec_T r 0 then true else false.
Definition Rneg (r : R) : bool := if Rlt_dec r 0 then true else false.

Definition is_nan (x : float64) : bool :=
  match x with NaN => true | _ => false end.

Definition is_finite (x : float64) : bool :=
  match x with Fin _ => true | _ => false end.

Definition one : float64 := Fin 1.

Definition add (x y : float64) : float64 :=
  match x, y with
  | NaN, _ | _, NaN => NaN
  | Inf a, Inf b => if Bool.eqb a b then Inf a else NaN
  | Inf a, Fin _ => Inf a
  | Fin _, Inf b => Inf b
  | Fin a, Fin b => Fin (a + b)
  end.

Definition opp (x : float64) : float64 :=
  match x with
  | NaN => NaN
  | Inf a => Inf (negb a)
  | Fin r => Fin (- r)
  end.

Definition sub (x y : float64) : float64 := add x (opp y).

Definition mul (x y : float64) : float64 :=
  match x, y with
  | NaN, _ | _, NaN => NaN
  | Inf a, Inf b => Inf (xorb a b)
  | Inf a, Fin r | Fin r, Inf a =>
      if Rzero r then NaN else Inf (xorb a (Rneg r))
  | Fin a, Fin b => Fin (a * b)
  end.

Definition div (x y : float64) : float64 :=
  match x, y with
  | NaN, _ | _, NaN => NaN
  | Inf _, Inf _ => NaN
  | Inf a, Fin r => Inf (xorb a (Rneg r))
  | Fin _, Inf _ => Fin 0
  | Fin a, Fin b =>
      if Rzero b then (if Rzero a then NaN else Inf (Rneg a))
      else Fin (a / b)
  end.

Definition sqrt (x : float64) : float64 :=
  match x with
  | NaN => NaN
  | Inf neg => if neg then NaN else Inf false
  | Fin r => if Rneg r then NaN else Fin (R_sqrt.sqrt r)
  end.

(** [x < 0] as numpy decides it: false on NaN. *)
Definition ltz (x : float64) : bool :=
  match x with
  | NaN => false
  | Inf neg => neg
  | Fin r => Rneg r
  end.

(** [x > 0], false on NaN. *)
Definition positive (x : float64) : Prop :=
  match x with
  | NaN => False
  | Inf neg => neg = false
  | Fin r => (0 < r)%R
  end.

End Float.

Import Float.

Declare Scope float_scope.
Delimit Scope float_scope with fl.
Infix "+" := add : float_scope.
Infix "-" := sub : float_scope.
Infix "*" := mul : float_scope.
Infix "/" := div : float_scope.

(** ** Tables (pandas DataFrame, Series) *)

Definition date := nat.

Record row : Type := Row { day : date; cells : list float64 }.

Record DataFrame : Type := Frame { columns : list string; rows : list row }.

(** A Series indexed by the column labels is the list of its values. *)
Definition Series := list float64.

Fixpoint zip_with {A B C : Type} (f : A -> B -> C) (xs : list A) (ys : list B)
  : list C :=
  match xs, ys with
  | x :: xs', y :: ys' => f x y :: zip_with f xs' ys'
  | _, _ => []
  end.

(** [df.empty]: true when either axis has length zero. *)
Definition empty (df : DataFrame) : bool :=
  match columns df, rows df with
  | [], _ | _, [] => true
  | _, _ => false
  end.

(** Every row is as wide as the header. *)
Definition well_formed (df : DataFrame) : Prop :=
  Forall (fun r => length (cells r) = length (columns df)) (rows df).

(** Column [j] of the table, top to bottom. *)
Definition column (j : nat) (rs : list row) : list float64 :=
  map (fun r => nth j (cells r) NaN) rs.

(** *** pct_change

    pandas computes [data / data.shift(1) - 1], after forward-filling the
    missing cells when [fill_method] is [pad] (the default up to pandas 2)
    and without filling when it is absent (pandas 3).  The constructor
    therefore also tells which pandas runs the program: [pad] stands for
    pandas up to version 2, [no_fill] for pandas 3. *)

Inductive fill_method : Type := pad | no_fill.

Definition ffill_cells (prev cur : list float64) : list float64 :=
  zip_with (fun p c => if is_nan c then p else c) prev cur.

Fixpoint ffill_from (prev : list float64) (rs : list row) : list row :=
  match rs with
  | [] => []
  | r :: rs' =>
      let c := ffill_cells prev (cells r) in
      Row (day r) c :: ffill_from c rs'
  end.

Definition ffill (rs : list row) : list row :=
  match rs with
  | [] => []
  | r :: rs' => r :: ffill_from (cells r) rs'
  end.

Definition change (cur prev : float64) : float64 := (cur / prev - one)%fl.

Fixpoint pct_from (prev : list float64) (rs : list row) : list row :=
  match rs with
  | [] => []
  | r :: rs' =>
      Row (day r) (zip_with change (cells r) prev) :: pct_from (cells r) rs'
  end.

Definition pct_rows (rs : list row) : list row :=
  match rs with
  | [] => []
  | r :: rs' =>
      Row (day r) (map (fun c => change c NaN) (cells r))
        :: pct_from (cells r) rs'
  end.

Definition pct_change (fm : fill_method) (df : DataFrame) : DataFrame :=
  Frame (columns df)
        (pct_rows (match fm with pad => ffill (rows df) | no_fill => rows df end)).

(** *** dropna: keep the rows without a missing cell *)

Definition complete (r : row) : bool := negb (existsb is_nan (cells r)).

Definition dropna (df : DataFrame) : DataFrame :=
  Frame (columns df) (filter complete (rows df)).

(** Line 48: [daily_returns = stock_data.pct_change().dropna()]. *)
Definition daily_returns (fm : fill_method) (stock_data : DataFrame) : DataFrame :=
  dropna (pct_change fm stock_data).

(** ** Statistics *)

Definition fsum (xs : list float64) : float64 := fold_left add xs (Fin 0).

Definition notna (xs : list float64) : list float64 :=
  filter (fun x => negb (is_nan x)) xs.

(** [Series.var()]: missing values skipped, [ddof = 1]; undefined with fewer
    than two observations. *)
Definition var (xs : list float64) : float64 :=
  let vals := notna xs in
  let count := length vals in
  if count <=? 1 then NaN
  else
    let avg := (fsum vals / Fin (INR count))%fl in
    let sqr := map (fun v => let d := (avg - v)%fl in (d * d)%fl) vals in
    (fsum sqr / Fin (INR count - 1))%fl.

Definition std (xs : list float64) : float64 := Float.sqrt (var xs).

(** [DataFrame.std()]: one value per column. *)
Definition frame_std (df : DataFrame) : Series :=
  map (fun j => std (column j (rows df))) (seq 0 (length (columns df))).

(** Lines 52-53. *)
Definition annualized_risk (daily_returns : DataFrame) : Series :=
  let daily_std := frame_std daily_returns in
  map (fun s => (s * Fin (R_sqrt.sqrt 252) * Fin 100)%fl) daily_std.

(** *** Pearson correlation

    [DataFrame.corr()] with its defaults: for each pair of columns the rows
    where both values are finite are kept, and the coefficient is the
    co-moment over the root of the product of the two second moments; it is
    undefined when that root is zero or no row is kept. *)

Definition to_R (x : float64) : R :=
  match x with Fin r => r | _ => 0%R end.

Definition finite_pairs (xs ys : list float64) : list (R * R) :=
  map (fun p => (to_R (fst p), to_R (snd p)))
      (filter (fun p => is_finite (fst p) && is_finite (snd p)) (combine xs ys)).

Definition Rsum (xs : list R) : R := fold_right Rplus 0%R xs.

Definition mean (xs : list R) : R := (Rsum xs / INR (length xs))%R.

(** Sum of the products of the deviations from the two means. *)
Definition comoment (ps : list (R * R)) : R :=
  let mx := mean (map fst ps) in
  let my := mean (map snd ps) in
  Rsum (map (fun p => ((fst p - mx) * (snd p - my))%R) ps).

(** Sum of the squared deviations from the mean. *)
Definition ssq (xs : list R) : R :=
  let m := mean xs in
  Rsum (map (fun x => ((x - m) * (x - m))%R) xs).

Definition pearson (xs ys : list float64) : float64 :=
  let ps := finite_pairs xs ys in
  if length ps <? 1 then NaN
  else
    let divisor := R_sqrt.sqrt (ssq (map fst ps) * ssq (map snd ps)) in
    if Rzero divisor then NaN else Fin (comoment ps / divisor).

Definition corr (df : DataFrame) : list (list float64) :=
  let k := length (columns df) in
  map (fun i =>
         map (fun j => pearson (column i (rows df)) (column j (rows df)))
             (seq 0 k))
      (seq 0 k).

(** *** Cumulative product

    [cumprod] skips missing values: they count as 1 in the running product
    and are put back as NaN in the result. *)

Definition fillna_one (c : float64) : float64 := if is_nan c then one else c.

Definition putmask (orig acc : float64) : float64 :=
  if is_nan orig then NaN else acc.

Fixpoint cumprod_from (acc : list float64) (rs : list row) : list row :=
  match rs with
  | [] => []
  | r :: rs' =>
      let acc' := zip_with mul acc (map fillna_one (cells r)) in
      Row (day r) (zip_with putmask (cells r) acc') :: cumprod_from acc' rs'
  end.

Definition cumprod (df : DataFrame) : DataFrame :=
  Frame (columns df)
        (match rows df with
         | [] => []
         | r :: rs' =>
             let acc := map fillna_one (cells r) in
             Row (day r) (zip_with putmask (cells r) acc) :: cumprod_from acc rs'
         end).

(** [1 + df], cell by cell. *)
Definition one_plus (df : DataFrame) : DataFrame :=
  Frame (columns df)
        (map (fun r => Row (day r) (map (add one) (cells r))) (rows df)).

(** Line 94. *)
Definition cumulative_returns (daily_returns : DataFrame) : DataFrame :=
  cumprod (one_plus daily_returns).

(** [df.tail()]: the last five rows. *)
Definition tail (df : DataFrame) : DataFrame :=
  Frame (columns df) (skipn (length (rows df) - 5) (rows df)).

(** ** Input normaliser (line 28) *)

(** [str.split(',')]: the pieces between the commas; never empty. *)
Fixpoint split_comma (s : string) : list string :=
  match s with
  | EmptyString => [EmptyString]
  | String c s' =>
      if Ascii.eqb c ","%char then EmptyString :: split_comma s'
      else
        match split_comma s' with
        | [] => [String c EmptyString]
        | piece :: pieces => String c piece :: pieces
        end
  end.

(** The ASCII characters for which [str.isspace()] holds: tab, line feed,
    vertical tab, form feed, carriage return, the four separators
    [0x1c]-[0x1f], and space. *)
Definition is_space (c : ascii) : bool :=
  let n := nat_of_ascii c in
  ((9 <=? n) && (n <=? 13)) || ((28 <=? n) && (n <=? 32)).

Fixpoint lstrip (s : string) : string :=
  match s with
  | EmptyString => EmptyString
  | String c s' => if is_space c then lstrip s' else s
  end.

Fixpoint rstrip (s : string) : string :=
  match s with
  | EmptyString => EmptyString
  | String c s' =>
      match rstrip s' with
      | EmptyString => if is_space c then EmptyString else String c EmptyString
      | rest => String c rest
      end
  end.

Definition strip (s : string) : string := rstrip (lstrip s).

(** [str.upper()] on ASCII text; bytes above 127 are left as they are. *)
Definition upper_char (c : ascii) : ascii :=
  let n := nat_of_ascii c in
  if (97 <=? n) && (n <=? 122) then ascii_of_nat (n - 32) else c.

Fixpoint upper (s : string) : string :=
  match s with
  | EmptyString => EmptyString
  | String c s' => String (upper_char c) (upper s')
  end.

Definition ticker_list (tickers : string) : list string :=
  map (fun x => upper (strip x)) (split_comma tickers).

(** ** The run: screen, random source, exceptions *)

(** What the presentation layer is asked to draw, in order. *)
Inductive widget : Type :=
| error (msg : string)
| success (msg : string)
| subheader (text : string)
| write (text : string)
| markdown (text : string)
| caption (text : string)
| dataframe (df : DataFrame)
| line_chart (df : DataFrame)
| bar_chart (tickers : list string) (risk : Series)
| heatmap (labels : list string) (matrix : list (list float64))
| paths_chart (simulation_df : list (nat * list float64)).

Definition is_error (w : widget) : bool :=
  match w with error _ => true | _ => false end.

Inductive exception : Type := IndexError | ValueError | KeyError.

(** The random generator is a cursor into the sequence of standard normal
    variates it is going to deliver. *)
Record world : Type := World { cursor : nat; screen : list widget }.

Definition M (A : Type) : Type := world -> (exception + A) * world.

Definition ret {A : Type} (a : A) : M A := fun w => (inr a, w).

Definition raise {A : Type} (e : exception) : M A := fun w => (inl e, w).

Definition bind {A B : Type} (m : M A) (k : A -> M B) : M B :=
  fun w =>
    match m w with
    | (inl e, w') => (inl e, w')
    | (inr a, w') => k a w'
    end.

Notation "x <- m ;; k" := (bind m (fun x => k))
  (at level 61, m at next level, right associativity).
Notation "m ;;; k" := (bind m (fun _ => k))
  (at level 61, right associativity).

(** [st.xxx(...)]: append one widget to the page. *)
Definition st (wd : widget) : M unit :=
  fun w => (inr tt, World (cursor w) (screen w ++ [wd])).

(** [xs[i]] on a Python list or a positional Series lookup. *)
Definition index {A : Type} (xs : list A) (i : nat) : M A :=
  match nth_error xs i with
  | Some x => ret x
  | None => raise IndexError
  end.

Fixpoint mapM {A B : Type} (f : A -> M B) (xs : list A) : M (list B) :=
  match xs with
  | [] => ret []
  | x :: xs' => y <- f x ;; ys <- mapM f xs' ;; ret (y :: ys)
  end.

(** [stock_data.iloc[-1]]. *)
Definition iloc_last (df : DataFrame) : M (list float64) :=
  match rev (rows df) with
  | r :: _ => ret (cells r)
  | [] => raise IndexError
  end.

(** [simulation_df[x] = vals]: the first column fixes the number of rows, a
    later one must have as many; an existing label is overwritten. *)
Fixpoint assign (x : nat) (vals : list float64) (cols : list (nat * list float64))
  : list (nat * list float64) :=
  match cols with
  | [] => [(x, vals)]
  | (k, v) :: cols' =>
      if k =? x then (x, vals) :: cols' else (k, v) :: assign x vals cols'
  end.

Definition set_column (cols : list (nat * list float64)) (x : nat)
  (vals : list float64) : M (list (nat * list float64)) :=
  match cols with
  | [] => ret [(x, vals)]
  | (_, v) :: _ =>
      if length vals =? length v then ret (assign x vals cols)
      else raise ValueError
  end.

(** [price * (1 + draws)], element by element. *)
Definition perturb (price draws : list float64) : list float64 :=
  zip_with mul price (map (add one) draws).

Definition num_simulations : nat := 50.
Definition num_days : nat := 252.

Section Run.

(** The standard normal variates the generator yields, in order. *)
Variable standard_normal : nat -> R.

(** The market-data provider, already narrowed to its adjusted-close table. *)
Variable yf_download : list string -> date -> date -> DataFrame.

(** Which pandas is installed: [pad] up to version 2, [no_fill] for 3. *)
Variable fm : fill_method.

Definition get_data (tickers_list : list string) (start end_ : date) : DataFrame :=
  yf_download tickers_list start end_.

(** [np.random.normal(loc, scale, size)]: a negative scale is refused;
    otherwise [size] fresh variates are scaled and shifted. *)
Definition normal (loc : float64) (scale : Series) (size : nat) : M (list float64) :=
  fun w =>
    if existsb ltz scale then (inl ValueError, w)
    else
      let zs := map (fun i => Fin (standard_normal (cursor w + i))) (seq 0 size) in
      (inr (zip_with (fun s z => (loc + s * z)%fl) scale zs),
       World (cursor w + size) (screen w)).

(** Lines 120-125: the loop body runs until [count] reaches 251. *)
Fixpoint inner_loop (daily_vol : Series) (last_price : list float64)
  (ys : list nat) (price_series : list (list float64)) (count : nat)
  : M (list (list float64)) :=
  match ys with
  | [] => ret price_series
  | _ :: ys' =>
      if count =? 251 then ret price_series
      else
        prev <- index price_series count ;;
        draws <- normal (Fin 0) daily_vol (length last_price) ;;
        let price := perturb prev draws in
        inner_loop daily_vol last_price ys' (price_series ++ [price]) (count + 1)
  end.

(** [p[0]] at line 128, where [p] is a Series labelled by the tickers.  The
    integer 0 is not one of the labels: up to pandas 2 the lookup falls back
    on the position, and fails with IndexError on an empty Series; pandas 3
    looks up the label only and raises [KeyError: 0]. *)
Definition getitem_0 (p : list float64) : M float64 :=
  match fm with
  | pad => index p 0
  | no_fill => raise KeyError
  end.

(** Lines 110-128. *)
Fixpoint outer_loop (daily_returns : DataFrame) (last_price : list float64)
  (xs : list nat) (simulation_df : list (nat * list float64))
  : M (list (nat * list float64)) :=
  match xs with
  | [] => ret simulation_df
  | x :: xs' =>
      let count := 0 in
      let daily_vol := frame_std daily_returns in
      draws <- normal (Fin 0) daily_vol (length last_price) ;;
      let price := perturb last_price draws in
      price_series <-
        inner_loop daily_vol last_price (seq 0 num_days) [price] count ;;
      first <- mapM getitem_0 price_series ;;
      simulation_df' <- set_column simulation_df x first ;;
      outer_loop daily_returns last_price xs' simulation_df'
  end.

Definition simulate (stock_data daily_returns : DataFrame)
  : M (list (nat * list float64)) :=
  last_price <- iloc_last stock_data ;;
  outer_loop daily_returns last_price (seq 0 num_simulations) [].

(** Lines 37-132, the branch taken when data came back. *)
Definition report (stock_data : DataFrame) : M unit :=
  st (success "Data loaded successfully!"%string) ;;;
  st (subheader "Raw Data Preview (Last 5 Days)"%string) ;;;
  st (dataframe (tail stock_data)) ;;;
  st (subheader "Price History"%string) ;;;
  st (line_chart stock_data) ;;;
  let daily_returns := daily_returns fm stock_data in
  let annualized_risk := annualized_risk daily_returns in
  st (markdown "---"%string) ;;;
  st (subheader "⚠️ Risk Analysis (Annualized Volatility)"%string) ;;;
  st (write "Higher bars mean higher risk. Investors expect higher returns for taking higher risks."%string) ;;;
  st (bar_chart (columns daily_returns) annualized_risk) ;;;
  st (markdown "---"%string) ;;;
  st (subheader "🔗 Correlation Heatmap"%string) ;;;
  st (write "1.0 = Perfect Positive Correlation (Move exactly together)"%string) ;;;
  st (write "0.0 = No Correlation"%string) ;;;
  let correlation_matrix := corr daily_returns in
  st (heatmap (columns daily_returns) correlation_matrix) ;;;
  st (markdown "---"%string) ;;;
  st (subheader "💰 Cumulative Return"%string) ;;;
  st (write "If you invested $1 on the start date, how much is it worth now?"%string) ;;;
  let cumulative_returns := cumulative_returns daily_returns in
  st (line_chart cumulative_returns) ;;;
  st (markdown "---"%string) ;;;
  st (subheader "🔮 Monte Carlo Simulation (Future Prediction)"%string) ;;;
  st (write "Simulating 50 possible future paths for your portfolio over the next year."%string) ;;;
  simulation_df <- simulate stock_data daily_returns ;;
  st (paths_chart simulation_df) ;;;
  st (caption "This chart shows 50 different 'what-if' scenarios for the first stock in your list."%string).

(** Lines 26-36: what a click on the button runs. *)
Definition analyze (tickers : string) (start_date end_date : date) : M unit :=
  let ticker_list := ticker_list tickers in
  let stock_data := get_data ticker_list start_date end_date in
  if empty stock_data then
    st (error "No data found. Please check ticker symbols."%string)
  else report stock_data.

(** Line 26: nothing is run until the button is pressed. *)
Definition app (button : bool) (tickers : string) (start_date end_date : date)
  : M unit :=
  if button then analyze tickers start_date end_date else ret tt.

End Run.

(** ** Vocabulary of the statements *)

(** *** Tables *)

(** A quoted price: a finite number other than zero. *)
Definition quoted (x : float64) : Prop :=
  match x with Fin r => r <> 0%R | _ => False end.

Definition all_quoted (rs : list row) : Prop :=
  Forall (fun r => Forall quoted (cells r)) rs.

Definition is_inf (x : float64) : bool :=
  match x with Inf _ => true | _ => false end.

Definition is_zero (x : float64) : bool :=
  match x with Fin r => Rzero r | _ => false end.

(** The percent change from [prev] to [cur] is a number: neither price is
    missing, and they are not both zero (0/0) nor both infinite. *)
Definition defined_change (cur prev : float64) : bool :=
  negb (is_nan cur) && negb (is_nan prev)
  && negb (is_zero cur && is_zero prev)
  && negb (is_inf cur && is_inf prev).

(** The last value of a list that is not missing; missing when there is
    none. *)
Fixpoint last_valid (xs : list float64) : float64 :=
  match xs with
  | [] => NaN
  | x :: xs' => let v := last_valid xs' in if is_nan v then x else v
  end.

(** The price of date [t] as [pct_change] reads it: up to pandas 2 the last
    quote up to that date, under pandas 3 the quote of that date. *)
Definition price_read (fm : fill_method) (prices : list float64) (t : nat)
  : float64 :=
  match fm with
  | pad => last_valid (firstn (S t) prices)
  | no_fill => nth t prices NaN
  end.

(** From each date to the next, every ticker has a defined change. *)
Definition every_change_defined (fm : fill_method) (df : DataFrame) : bool :=
  forallb (fun j =>
             let prices := column j (rows df) in
             forallb (fun t => defined_change (price_read fm prices (S t))
                                              (price_read fm prices t))
                     (seq 0 (length (rows df) - 1)))
          (seq 0 (length (columns df))).

(** The same check row by row: every price of every row has a defined
    change with respect to the row before it, the first row with respect to
    [prev]. *)
Fixpoint changes_defined (prev : list float64) (rs : list row) : bool :=
  match rs with
  | [] => true
  | r :: rs' =>
      forallb (fun p => defined_change (fst p) (snd p)) (combine (cells r) prev)
      && changes_defined (cells r) rs'
  end.

(** The rows as [pct_change] reads them. *)
Definition filled (fm : fill_method) (rs : list row) : list row :=
  match fm with pad => ffill rs | no_fill => rs end.

(** A finite number greater than -1. *)
Definition above_minus_one (x : float64) : Prop :=
  match x with Fin r => (-1 < r)%R | _ => False end.

(** A number that is not below zero. *)
Definition not_negative (x : float64) : Prop :=
  is_nan x = false /\ ltz x = false.

(** The last row of a table, or no cells when there is none. *)
Definition last_cells (df : DataFrame) : list float64 :=
  cells (last (rows df) (Row 0 [])).

(** Entry [(i, j)] of a matrix given by its rows. *)
Definition entry (m : list (list float64)) (i j : nat) : float64 :=
  nth j (nth i m []) NaN.

(** A number between -1 and 1. *)
Definition in_unit (x : float64) : Prop :=
  match x with Fin r => (-1 <= r <= 1)%R | _ => False end.

(** The variance is a number other than zero. *)
Definition nonzero_variance (xs : list float64) : Prop :=
  exists v : R, var xs = Fin v /\ v <> 0%R.

(** [x0 * x1 * ... * xk]: the product of the first [k + 1] values. *)
Definition product_upto (xs : list float64) (k : nat) : float64 :=
  fold_left mul (firstn k (List.tl xs)) (hd NaN xs).

(** The successive products [acc * x0], [acc * x0 * x1], ... *)
Fixpoint running_products (acc : float64) (xs : list float64) : list float64 :=
  match xs with
  | [] => []
  | x :: xs' => (acc * x)%fl :: running_products (acc * x)%fl xs'
  end.

(** The sum of [f p * g p] over a list. *)
Definition sum_of_products {A : Type} (f g : A -> R) (l : list A) : R :=
  Rsum (map (fun p => (f p * g p)%R) l).

(** *** Ticker strings *)

Fixpoint all_chars (p : ascii -> bool) (s : string) : bool :=
  match s with
  | EmptyString => true
  | String c s' => p c && all_chars p s'
  end.

(** Nothing but commas and white space. *)
Definition blank (s : string) : bool :=
  all_chars (fun c => Ascii.eqb c ","%char || is_space c) s.

(** *** The random walk, as the specification words it *)

(** The vector [Normal(0, daily_vol)] read off the variates [n], [n+1], ...
    of the generator: one scaled variate per entry of [last_price]. *)
Definition gauss_draw (standard_normal : nat -> R) (daily_vol : Series)
  (size n : nat) : list float64 :=
  zip_with (fun s z => (Fin 0 + s * z)%fl) daily_vol
           (map (fun i => Fin (standard_normal (n + i))) (seq 0 size)).

(** [steps] successive price vectors after [price], each the previous one
    times [1 + Normal(0, daily_vol)]. *)
Fixpoint walk (standard_normal : nat -> R) (daily_vol : Series) (size : nat)
  (steps n : nat) (price : list float64) : list (list float64) :=
  match steps with
  | 0 => []
  | S steps' =>
      let next := perturb price (gauss_draw standard_normal daily_vol size n) in
      next :: walk standard_normal daily_vol size steps' (n + size) next
  end.

(** The column of the simulation table filled by a path that starts reading
    the generator at variate [n]: the first entry of each of its 252 prices. *)
Definition path_column (standard_normal : nat -> R) (daily_vol : Series)
  (last_price : list float64) (n : nat) : list float64 :=
  map (fun p => nth 0 p NaN)
      (walk standard_normal daily_vol (length last_price) num_days n last_price).

(** The simulation table when the generator stands at variate [n]. *)
Definition simulation_table (standard_normal : nat -> R) (daily_vol : Series)
  (last_price : list float64) (n paths : nat) : list (nat * list float64) :=
  map (fun x =>
         (x, path_column standard_normal daily_vol last_price
               (n + x * (num_days * length last_price))))
      (seq 0 paths).

(** *** The page *)

(** A computation is quiet when it draws nothing on the page. *)
Definition quiet {A : Type} (m : M A) : Prop :=
  forall w, screen (snd (m w)) = screen w.

(** What [report] has drawn when the simulation starts. *)
Definition preamble (fm : fill_method) (stock_data : DataFrame) : list widget :=
  let dr := daily_returns fm stock_data in
  [ success "Data loaded successfully!"%string;
    subheader "Raw Data Preview (Last 5 Days)"%string;
    dataframe (tail stock_data);
    subheader "Price History"%string;
    line_chart stock_data;
    markdown "---"%string;
    subheader "⚠️ Risk Analysis (Annualized Volatility)"%string;
    write "Higher bars mean higher risk. Investors expect higher returns for taking higher risks."%string;
    bar_chart (columns dr) (annualized_risk dr);
    markdown "---"%string;
    subheader "🔗 Correlation Heatmap"%string;
    write "1.0 = Perfect Positive Correlation (Move exactly together)"%string;
    write "0.0 = No Correlation"%string;
    heatmap (columns dr) (corr dr);
    markdown "---"%string;
    subheader "💰 Cumulative Return"%string;
    write "If you invested $1 on the start date, how much is it worth now?"%string;
    line_chart (cumulative_returns dr);
    markdown "---"%string;
    subheader "🔮 Monte Carlo Simulation (Future Prediction)"%string;
    write "Simulating 50 possible future paths for your portfolio over the next year."%string ].

(** What it draws once the simulation has returned. *)
Definition finale (simulation_df : list (nat * list float64)) : list widget :=
  [ paths_chart simulation_df;
    caption "This chart shows 50 different 'what-if' scenarios for the first stock in your list."%string ].

Definition blank_page : world := World 0 [].

(** *** Sample inputs *)

(** A provider that answers every query with the same table. *)
Definition always (df : DataFrame) : list string -> date -> date -> DataFrame :=
  fun _ _ _ => df.

(** The answer of a provider that found nothing. *)
Definition no_table : DataFrame := Frame [] [].

(** The scenario of the specification: one ticker, five closing prices. *)
Definition aapl_prices : DataFrame :=
  Frame ["AAPL"%string]
        [Row 0 [Fin 100]; Row 1 [Fin 101]; Row 2 [Fin 99]; Row 3 [Fin 102];
         Row 4 [Fin 103]].

(** Three AAPL quotes next to a ticker the provider has no data for. *)
Definition partial_prices : DataFrame :=
  Frame ["AAPL"%string; "ZZZZ"%string]
        [Row 0 [Fin 100; NaN]; Row 1 [Fin 101; NaN]; Row 2 [Fin 99; NaN]].

(** A price that stays at zero for two days. *)
Definition zero_prices : DataFrame :=
  Frame ["AAPL"%string] [Row 0 [Fin 0]; Row 1 [Fin 0]; Row 2 [Fin 5]].

(** A price table with a single trading day. *)
Definition one_quote : DataFrame := Frame ["AAPL"%string] [Row 0 [Fin 100]].

(** Prices whose daily returns are 0, 1 and 2: volatility exactly 1. *)
Definition risky_prices : DataFrame :=
  Frame ["AAPL"%string] [Row 0 [Fin 1]; Row 1 [Fin 1]; Row 2 [Fin 2]; Row 3 [Fin 6]].

(** Prices that double every day: the daily return is constantly 1. *)
Definition steady_prices : DataFrame :=
  Frame ["AAPL"%string] [Row 0 [Fin 1]; Row 1 [Fin 2]; Row 2 [Fin 4]].

(** A price that touches zero for one day. *)
Definition dip_prices : DataFrame :=
  Frame ["AAPL"%string] [Row 0 [Fin 1]; Row 1 [Fin 0]; Row 2 [Fin 5]].

(** A quote missing on the second day. *)
Definition gap_prices : DataFrame :=
  Frame ["AAPL"%string] [Row 0 [Fin 1]; Row 1 [NaN]; Row 2 [Fin 2]; Row 3 [Fin 6]].

(** Two tickers, the columns in alphabetical order. *)
Definition sorted_prices : DataFrame :=
  Frame ["AAPL"%string; "TSLA"%string]
        [Row 0 [Fin 100; Fin 200]; Row 1 [Fin 110; Fin 180]; Row 2 [Fin 150; Fin 200]].

(** *** Further vocabulary: strings *)

Fixpoint count_char (c : ascii) (s : string) : nat :=
  match s with
  | EmptyString => 0
  | String d s' => (if Ascii.eqb d c then 1 else 0) + count_char c s'
  end.

Definition is_lower (c : ascii) : bool :=
  let n := nat_of_ascii c in (97 <=? n) && (n <=? 122).

Definition is_ascii (c : ascii) : bool := nat_of_ascii c <? 128.

(** ASCII text: the strings on which the byte-wise [strip] and [upper] are
    Python's. *)
Definition ascii_only (s : string) : bool := all_chars is_ascii s.

(** [",".join(ts)]. *)
Fixpoint join (ts : list string) : string :=
  match ts with
  | [] => EmptyString
  | t :: ts' =>
      match ts' with
      | [] => t
      | _ :: _ => (t ++ String ","%char (join ts'))%string
      end
  end.

(** The ASCII white space of Python: tab, line feed, vertical tab, form
    feed, carriage return, the file, group, record and unit separators, and
    the space. *)
Definition white_space (c : ascii) : bool :=
  existsb (Ascii.eqb c)
          ["009"; "010"; "011"; "012"; "013"; "028"; "029"; "030"; "031"; " "]%char.

(** No white space in front. *)
Definition clean_head (s : string) : Prop :=
  match s with
  | EmptyString => True
  | String c _ => white_space c = false
  end.

(** No white space at the end. *)
Fixpoint clean_last (s : string) : Prop :=
  match s with
  | EmptyString => True
  | String c s' =>
      match s' with
      | EmptyString => white_space c = false
      | String _ _ => clean_last s'
      end
  end.

(** A tidy ticker: no white space at either end, no lower-case letter, no
    comma. *)
Definition tidy (t : string) : Prop :=
  clean_head t /\ clean_last t /\
  all_chars (fun c => negb (is_lower c)) t = true /\
  count_char ","%char t = 0.

(** *** Further vocabulary: tables *)

(** No cell of the rows is missing. *)
Definition no_missing (rs : list row) : Prop :=
  Forall (fun r => existsb is_nan (cells r) = false) rs.

(** Returns of two tickers that move together on one day only. *)
Definition pair_returns : DataFrame :=
  Frame ["AAPL"%string; "MSFT"%string]
        [Row 1 [Fin 0; Fin 1]; Row 2 [Fin 1; Fin 3]; Row 3 [Fin 2; Fin 2]].

(** A table that has its header but no row. *)
Definition header_only : DataFrame := Frame ["AAPL"%string] [].

(** ** Proof tools *)

Arguments change : simpl never.

(** Side conditions on the sample tables: shapes and non-zero quotes. *)
Ltac quotes := repeat constructor; simpl; try lra; try lia.

(** * Properties *)

(** ** Arithmetic on the extended reals *)

Lemma Rzero_0 : Rzero 0 = true.
Proof. unfold Rzero. destruct (Req_dec_T 0 0) as [_ | H]; [reflexivity | now elim H]. Qed.

Lemma Rzero_nz (r : R) : r <> 0%R -> Rzero r = false.
Proof. intros H. unfold Rzero. destruct (Req_dec_T r 0); [contradiction | reflexivity]. Qed.

Lemma Rzero_true_iff (r : R) : Rzero r = true <-> r = 0%R.
Proof.
  unfold Rzero. destruct (Req_dec_T r 0); split; intros; try easy.
Qed.

Lemma Rneg_lt (r : R) : (r < 0)%R -> Rneg r = true.
Proof. intros H. unfold Rneg. destruct (Rlt_dec r 0); [reflexivity | contradiction]. Qed.

Lemma Rneg_ge (r : R) : (0 <= r)%R -> Rneg r = false.
Proof. intros H. unfold Rneg. destruct (Rlt_dec r 0); [lra | reflexivity]. Qed.

Lemma div_fin (a b : R) : b <> 0%R -> (Fin a / Fin b)%fl = Fin (a / b).
Proof. intros H. simpl. now rewrite Rzero_nz. Qed.

Lemma change_nan (c : float64) : change c NaN = NaN.
Proof. now destruct c. Qed.

Lemma change_fin (c p : R) : p <> 0%R -> change (Fin c) (Fin p) = Fin (c / p - 1).
Proof. intros H. unfold change. now rewrite div_fin. Qed.

Lemma mul_fin_pos (a b : float64) : positive a -> positive b -> positive (a * b)%fl.
Proof.
  destruct a as [| [] | a], b as [| [] | b]; simpl; try easy.
  - intros _ Hb. rewrite Rzero_nz, Rneg_ge by lra. reflexivity.
  - intros Ha _. rewrite Rzero_nz, Rneg_ge by lra. reflexivity.
  - intros Ha Hb. now apply Rmult_lt_0_compat.
Qed.

Lemma sqrt_not_negative (x : float64) : ltz (Float.sqrt x) = false.
Proof.
  destruct x as [| [] | r]; simpl; try reflexivity.
  destruct (Rneg r) eqn:E; simpl; [reflexivity |].
  apply Rneg_ge, sqrt_pos.
Qed.

(** ** Shapes *)

Lemma zip_with_length {A B C : Type} (f : A -> B -> C) (xs : list A) (ys : list B) :
  length (zip_with f xs ys) = Nat.min (length xs) (length ys).
Proof.
  revert ys; induction xs as [| x xs IH]; intros [| y ys]; simpl; auto.
Qed.

Lemma zip_with_nth {A B C : Type} (f : A -> B -> C) (da : A) (db : B) (dc : C)
  (xs : list A) (ys : list B) (i : nat) :
  i < length xs -> i < length ys ->
  nth i (zip_with f xs ys) dc = f (nth i xs da) (nth i ys db).
Proof.
  revert ys i; induction xs as [| x xs IH]; intros [| y ys] [| i]; simpl;
    intros; try lia; auto.
  apply IH; lia.
Qed.

Lemma pct_from_length (prev : list float64) (rs : list row) :
  length (pct_from prev rs) = length rs.
Proof. revert prev; induction rs; simpl; intros; auto. Qed.

Lemma pct_rows_length (rs : list row) : length (pct_rows rs) = length rs.
Proof. destruct rs; simpl; auto using pct_from_length. Qed.

Lemma ffill_from_length (prev : list float64) (rs : list row) :
  length (ffill_from prev rs) = length rs.
Proof. revert prev; induction rs; simpl; intros; auto. Qed.

Lemma ffill_length (rs : list row) : length (ffill rs) = length rs.
Proof. destruct rs; simpl; auto using ffill_from_length. Qed.

Lemma pct_from_widths (k : nat) (rs : list row) :
  forall prev, length prev = k ->
    Forall (fun r => length (cells r) = k) rs ->
    Forall (fun r => length (cells r) = k) (pct_from prev rs).
Proof.
  induction rs as [| r rs IH]; intros prev Hp Hw; cbn [pct_from]; constructor;
    inversion Hw; subst.
  - cbn [cells]. rewrite zip_with_length. lia.
  - apply IH; auto.
Qed.

Lemma ffill_from_widths (k : nat) (rs : list row) :
  forall prev, length prev = k ->
    Forall (fun r => length (cells r) = k) rs ->
    Forall (fun r => length (cells r) = k) (ffill_from prev rs).
Proof.
  induction rs as [| r rs IH]; intros prev Hp Hw; cbn [ffill_from]; constructor;
    inversion Hw; subst.
  - cbn [cells]. unfold ffill_cells. rewrite zip_with_length. lia.
  - apply IH; auto. unfold ffill_cells. rewrite zip_with_length. lia.
Qed.

(** ** Daily returns *)

Lemma quoted_not_nan (x : float64) : quoted x -> is_nan x = false.
Proof. now destruct x. Qed.

Lemma ffill_cells_quoted (prev cur : list float64) :
  length prev = length cur -> Forall quoted cur -> ffill_cells prev cur = cur.
Proof.
  unfold ffill_cells. revert cur.
  induction prev as [| p prev IH]; intros [| c cur]; simpl; try easy.
  intros Hl Hq. inversion Hq; subst.
  rewrite quoted_not_nan by assumption. f_equal. apply IH; auto.
Qed.

Lemma ffill_from_quoted (w : nat) (prev : list float64) (rs : list row) :
  length prev = w ->
  Forall (fun r => length (cells r) = w) rs ->
  all_quoted rs ->
  ffill_from prev rs = rs.
Proof.
  revert prev; induction rs as [| [d c] rs IH]; simpl; intros prev Hp Hw Hq; auto.
  inversion Hw; subst. inversion Hq; subst. simpl in *.
  rewrite ffill_cells_quoted by (auto; congruence).
  f_equal. apply IH; auto.
Qed.

Lemma ffill_quoted (w : nat) (rs : list row) :
  Forall (fun r => length (cells r) = w) rs -> all_quoted rs -> ffill rs = rs.
Proof.
  destruct rs as [| r rs]; simpl; intros Hw Hq; auto.
  inversion Hw; subst. inversion Hq; subst.
  f_equal. eapply ffill_from_quoted; eauto.
Qed.

Lemma zip_change_complete (cur prev : list float64) :
  Forall quoted cur -> Forall quoted prev ->
  existsb is_nan (zip_with change cur prev) = false.
Proof.
  revert prev; induction cur as [| c cur IH]; intros [| p prev]; simpl; auto.
  intros Hc Hp. inversion Hc; subst. inversion Hp; subst.
  destruct c as [| | c]; try easy. destruct p as [| | p]; try easy.
  rewrite change_fin by assumption. simpl. apply IH; auto.
Qed.

Lemma pct_from_complete (prev : list float64) (rs : list row) :
  Forall quoted prev -> all_quoted rs ->
  filter complete (pct_from prev rs) = pct_from prev rs.
Proof.
  revert prev; induction rs as [| r rs IH]; simpl; intros prev Hp Hq; auto.
  inversion Hq; subst.
  unfold complete at 1; simpl. rewrite zip_change_complete by assumption. simpl.
  f_equal. apply IH; auto.
Qed.

Lemma first_row_dropped (d : date) (cs : list float64) :
  cs <> [] -> complete (Row d (map (fun c => change c NaN) cs)) = false.
Proof.
  destruct cs as [| c cs]; [easy |]. intros _.
  unfold complete; simpl. now rewrite change_nan.
Qed.

Lemma empty_false (df : DataFrame) :
  empty df = false -> columns df <> [] /\ rows df <> [].
Proof. unfold empty. destruct (columns df), (rows df); easy. Qed.

Lemma daily_returns_quoted (fm : fill_method) (df : DataFrame) :
  empty df = false -> well_formed df -> all_quoted (rows df) ->
  rows (daily_returns fm df) = pct_from (cells (hd (Row 0 []) (rows df))) (List.tl (rows df)).
Proof.
  intros He Hw Hq. apply empty_false in He as [Hc Hr].
  unfold daily_returns, dropna, pct_change; simpl.
  assert (Hf : match fm with pad => ffill (rows df) | no_fill => rows df end = rows df).
  { destruct fm; [| reflexivity]. eapply ffill_quoted; eauto. }
  rewrite Hf. red in Hw.
  destruct (rows df) as [| r rs]; [easy |]. simpl.
  inversion Hw; subst. inversion Hq; subst.
  rewrite first_row_dropped.
  - apply pct_from_complete; auto.
  - destruct (cells r); [| easy]. destruct (columns df); easy.
Qed.

Lemma filled_rows_shape (fm : fill_method) (r : row) (rs : list row) :
  exists rest,
    match fm with pad => ffill (r :: rs) | no_fill => r :: rs end = r :: rest /\
    length rest = length rs.
Proof.
  destruct fm; cbn [ffill].
  - exists (ffill_from (cells r) rs). split; [reflexivity | apply ffill_from_length].
  - exists rs. split; reflexivity.
Qed.

Lemma change_is_nan (cur prev : float64) :
  is_nan (change cur prev) = negb (defined_change cur prev).
Proof.
  unfold change, defined_change.
  destruct cur as [| sa | a], prev as [| sb | b]; cbn; try reflexivity.
  - destruct (Rzero a); reflexivity.
  - destruct (Rzero a), (Rzero b); reflexivity.
Qed.

Lemma zip_change_defined (cur prev : list float64) :
  existsb is_nan (zip_with change cur prev) =
    negb (forallb (fun p => defined_change (fst p) (snd p)) (combine cur prev)).
Proof.
  revert prev; induction cur as [| c cur IH]; intros [| p prev];
    cbn [zip_with combine existsb forallb fst snd negb]; try reflexivity.
  rewrite change_is_nan, IH. now destruct (defined_change c p).
Qed.

Lemma complete_pct_from (rs : list row) :
  forall prev, forallb complete (pct_from prev rs) = changes_defined prev rs.
Proof.
  induction rs as [| r rs IH]; intros prev; [reflexivity |].
  cbn [pct_from forallb changes_defined]. unfold complete at 1. cbn [cells].
  now rewrite zip_change_defined, negb_involutive, IH.
Qed.

Lemma filter_length_all {A : Type} (f : A -> bool) (l : list A) :
  length (filter f l) = length l <-> forallb f l = true.
Proof.
  induction l as [| a l IH]; cbn [filter forallb length]; [easy |].
  pose proof (filter_length_le f l) as Hle.
  destruct (f a); cbn [length andb].
  - rewrite <- IH. split; intros H; lia.
  - split; [intros H; lia | discriminate].
Qed.

Lemma every_change_defined_spec (fm : fill_method) (df : DataFrame) :
  every_change_defined fm df = true <->
  forall j t,
    j < length (columns df) -> S t < length (rows df) ->
    defined_change (price_read fm (column j (rows df)) (S t))
                   (price_read fm (column j (rows df)) t) = true.
Proof.
  unfold every_change_defined. rewrite forallb_forall. split.
  - intros H j t Hj Ht. specialize (H j). rewrite in_seq in H.
    assert (Hin : 0 <= j < 0 + length (columns df)) by lia.
    specialize (H Hin). cbv zeta in H. rewrite forallb_forall in H.
    apply H, in_seq. lia.
  - intros H j Hj. apply in_seq in Hj. cbv zeta. apply forallb_forall.
    intros t Ht. apply in_seq in Ht. apply H; lia.
Qed.

Lemma ffill_cells_nth (prev cur : list float64) (j : nat) :
  j < length prev -> j < length cur ->
  nth j (ffill_cells prev cur) NaN =
    if is_nan (nth j cur NaN) then nth j prev NaN else nth j cur NaN.
Proof.
  intros Hp Hc. unfold ffill_cells.
  now rewrite (zip_with_nth (fun p c => if is_nan c then p else c) NaN NaN NaN).
Qed.

Lemma column_cons (j : nat) (r : row) (rs : list row) :
  column j (r :: rs) = nth j (cells r) NaN :: column j rs.
Proof. reflexivity. Qed.

Lemma last_valid_cons (x : float64) (xs : list float64) :
  last_valid (x :: xs) = if is_nan (last_valid xs) then x else last_valid xs.
Proof. reflexivity. Qed.

(** Forward filling leaves in each cell the last quote of its column. *)
Lemma ffill_from_nth (k j : nat) (rs : list row) :
  j < k ->
  Forall (fun r => length (cells r) = k) rs ->
  forall (prev : list float64) (t : nat),
    length prev = k -> t < length rs ->
    nth j (cells (nth t (ffill_from prev rs) (Row 0 []))) NaN =
      if is_nan (last_valid (firstn (S t) (column j rs))) then nth j prev NaN
      else last_valid (firstn (S t) (column j rs)).
Proof.
  intros Hj Hw. induction Hw as [| r rs Hr Hw IH]; intros prev t Hp Ht;
    [cbn in Ht; lia |].
  cbn [length] in Ht. rewrite column_cons. cbn [ffill_from firstn].
  rewrite last_valid_cons. destruct t as [| t].
  - cbn [nth cells firstn last_valid is_nan]. rewrite ffill_cells_nth by lia.
    now destruct (is_nan (nth j (cells r) NaN)) eqn:E; rewrite ?E.
  - cbn [nth]. rewrite IH by (try lia; unfold ffill_cells; rewrite zip_with_length; lia).
    rewrite ffill_cells_nth by lia.
    destruct (is_nan (last_valid (firstn (S t) (column j rs)))) eqn:E;
      [reflexivity | now rewrite E].
Qed.

Lemma filled_cell (fm : fill_method) (k j t : nat) (rs : list row) :
  Forall (fun r => length (cells r) = k) rs ->
  j < k -> t < length rs ->
  nth j (cells (nth t (filled fm rs) (Row 0 []))) NaN =
    price_read fm (column j rs) t.
Proof.
  intros Hw Hj Ht. destruct fm; unfold filled, price_read.
  - destruct rs as [| r rs]; [cbn in Ht; lia |]. inversion Hw; subst.
    rewrite column_cons. cbn [ffill firstn]. rewrite last_valid_cons.
    destruct t as [| t]; [reflexivity |].
    cbn [nth length] in *. apply (ffill_from_nth (length (cells r))); auto. lia.
  - unfold column.
    rewrite (nth_indep (map (fun r => nth j (cells r) NaN) rs) NaN
                       (nth j (cells (Row 0 [])) NaN))
      by (rewrite length_map; exact Ht).
    now rewrite (map_nth (fun r => nth j (cells r) NaN)).
Qed.

Lemma forallb_combine_nth {A B : Type} (f : A -> B -> bool) (da : A) (db : B)
  (xs : list A) :
  forall ys : list B,
    length xs = length ys ->
    (forallb (fun p => f (fst p) (snd p)) (combine xs ys) = true <->
     forall j, j < length xs -> f (nth j xs da) (nth j ys db) = true).
Proof.
  induction xs as [| x xs IH]; intros [| y ys] Hl; cbn [length] in Hl; try lia.
  - split; [intros _ j Hj; cbn in Hj; lia | reflexivity].
  - cbn [combine forallb fst snd length]. rewrite andb_true_iff, (IH ys) by lia.
    split.
    + intros [H0 Hs] [| j] Hj; [exact H0 | apply Hs; lia].
    + intros H. split; [apply (H 0); lia | intros j Hj; apply (H (S j)); lia].
Qed.

Lemma changes_defined_nth (k : nat) (rs : list row) :
  Forall (fun r => length (cells r) = k) rs ->
  forall prev : list float64,
    length prev = k ->
    (changes_defined prev rs = true <->
     forall t j, t < length rs -> j < k ->
       defined_change (nth j (cells (nth t rs (Row 0 []))) NaN)
                      (nth j (nth t (prev :: map cells rs) []) NaN) = true).
Proof.
  intros Hw. induction Hw as [| r rs Hr Hw IH]; intros prev Hp.
  - split; [intros _ t j Ht; cbn in Ht; lia | reflexivity].
  - cbn [changes_defined length]. rewrite andb_true_iff.
    rewrite (forallb_combine_nth defined_change NaN NaN) by lia.
    rewrite (IH (cells r) Hr). rewrite Hr. split.
    + intros [H0 Hs] [| t] j Ht Hj; cbn [nth map]; [now apply H0 | apply Hs; lia].
    + intros H. split.
      * intros j Hj. apply (H 0 j); lia.
      * intros t j Ht Hj. apply (H (S t) j); lia.
Qed.

(** C1, as amended: on a non-empty, well-formed price table the returns
    table (percent change, then the rows with a missing cell dropped) has
    exactly one row fewer than the price table if and only if every ticker
    has a defined change from each date to the next: reading at each date
    the last quote so far up to pandas 2, and the quote of the date itself
    under pandas 3, neither of the two prices is missing, and they are not
    both zero nor both infinite. *)
Theorem returns_one_row_fewer (fm : fill_method) (stock_data : DataFrame) :
  empty stock_data = false ->
  well_formed stock_data ->
  length (rows stock_data) = S (length (rows (daily_returns fm stock_data))) <->
  every_change_defined fm stock_data = true.
Proof.
  intros He Hw. apply empty_false in He as [Hc Hr]. red in Hw.
  rewrite every_change_defined_spec.
  assert (HF : Forall (fun r => length (cells r) = length (columns stock_data))
                 (filled fm (rows stock_data))).
  { destruct fm; [| exact Hw]. cbn [filled].
    destruct (rows stock_data) as [| r rs]; [constructor |].
    inversion Hw; subst. cbn [ffill]. constructor; [assumption |].
    apply ffill_from_widths; assumption. }
  assert (HL : length (filled fm (rows stock_data)) = length (rows stock_data))
    by (destruct fm; [apply ffill_length | reflexivity]).
  pose proof (fun j t => filled_cell fm (length (columns stock_data)) j t
                           (rows stock_data) Hw) as Hcell.
  unfold daily_returns, dropna, pct_change. cbn [rows].
  change (match fm with
          | pad => ffill (rows stock_data)
          | no_fill => rows stock_data
          end) with (filled fm (rows stock_data)).
  destruct (filled fm (rows stock_data)) as [| r rest];
    [destruct (rows stock_data); [easy | discriminate HL] |].
  inversion HF as [| ? ? Hwr Hwrest]; subst.
  cbn [pct_rows filter]. rewrite first_row_dropped
    by (destruct (cells r); [destruct (columns stock_data); easy | easy]).
  rewrite <- HL. cbn [length] in *.
  transitivity (changes_defined (cells r) rest = true).
  { rewrite <- complete_pct_from, <- filter_length_all, pct_from_length.
    split; intros H; lia. }
  rewrite (changes_defined_nth (length (columns stock_data))) by assumption.
  assert (Hprev : forall t, nth t (cells r :: map cells rest) [] =
                            cells (nth t (r :: rest) (Row 0 []))).
  { intros t. change (cells r :: map cells rest) with (map cells (r :: rest)).
    exact (map_nth cells (r :: rest) (Row 0 []) t). }
  split.
  - intros H j t Hj Ht. rewrite <- !Hcell by lia.
    specialize (H t j). rewrite Hprev in H. apply H; lia.
  - intros H t j Ht Hj. rewrite Hprev.
    specialize (H j t). rewrite <- !Hcell in H by lia. apply H; lia.
Qed.

Lemma dip_prices_changes (fm : fill_method) : every_change_defined fm dip_prices = true.
Proof.
  destruct fm; unfold every_change_defined; cbn -[defined_change];
    unfold defined_change; cbn -[Rzero];
    rewrite Rzero_0, !Rzero_nz by lra; reflexivity.
Qed.

Lemma returns_one_row_fewer_witness :
  every_change_defined pad dip_prices = true /\
  length (rows dip_prices) = S (length (rows (daily_returns pad dip_prices))).
Proof.
  split; [apply dip_prices_changes |].
  apply (returns_one_row_fewer pad dip_prices);
    [reflexivity | quotes | apply dip_prices_changes].
Defined.

(** A quote missing for one day is filled up to pandas 2 and costs no row;
    under pandas 3 it leaves two changes undefined. *)
Lemma gap_prices_changes :
  every_change_defined pad gap_prices = true /\
  every_change_defined no_fill gap_prices = false.
Proof.
  unfold every_change_defined. split; cbn -[defined_change];
    unfold defined_change; cbn -[Rzero];
    rewrite ?Rzero_nz by lra; reflexivity.
Qed.

(** C1 fails as stated: a column without data makes every row of the percent
    change incomplete, so no row survives where two were promised. *)
Lemma returns_rows_counterexample :
  length (rows partial_prices) = 3 /\
  length (rows (daily_returns pad partial_prices)) = 0 /\
  length (rows (daily_returns no_fill partial_prices)) = 0 /\
  length (rows (daily_returns pad partial_prices))
    <> length (rows partial_prices) - 1.
Proof.
  unfold daily_returns, dropna, pct_change, complete; simpl.
  rewrite !orb_true_r. simpl. repeat split; auto.
Qed.

(** Two consecutive zero prices have the same effect: 0/0 is undefined. *)
Lemma returns_rows_zero_prices :
  length (rows (daily_returns no_fill zero_prices)) = 1.
Proof.
  unfold daily_returns, dropna, pct_change, complete; simpl.
  assert (H0 : change (Fin 0) (Fin 0) = NaN).
  { unfold change; simpl. now rewrite Rzero_0. }
  assert (H5 : is_nan (change (Fin 5) (Fin 0)) = false).
  { unfold change; simpl. rewrite Rzero_0, Rzero_nz by lra. reflexivity. }
  rewrite H0, H5. reflexivity.
Qed.

(** ** Input normaliser *)

Lemma split_comma_not_nil (s : string) : split_comma s <> [].
Proof.
  induction s as [| c s IH]; simpl; [easy |].
  destruct (Ascii.eqb c ","); [easy |]. destruct (split_comma s); easy.
Qed.

Lemma lstrip_spaces (s : string) : all_chars is_space s = true -> lstrip s = EmptyString.
Proof.
  induction s as [| c s IH]; simpl; [easy |].
  intros H. apply andb_true_iff in H as [Hc Hs]. rewrite Hc. auto.
Qed.

Lemma split_comma_blank (s : string) :
  blank s = true -> Forall (fun p => all_chars is_space p = true) (split_comma s).
Proof.
  unfold blank. induction s as [| c s IH]; simpl.
  - intros _. repeat constructor.
  - intros H. apply andb_true_iff in H as [Hc Hs]. specialize (IH Hs).
    destruct (Ascii.eqb c ",") eqn:E.
    + constructor; [reflexivity | assumption].
    + simpl in Hc. destruct (split_comma s) as [| p ps].
      * repeat constructor. simpl. now rewrite Hc.
      * inversion IH; subst. constructor; [| assumption].
        simpl. rewrite Hc. assumption.
Qed.

(** C10: splitting on commas always yields at least one piece, so the
    normaliser never returns the empty list; on the empty string it returns
    the one-element list holding the empty ticker, and on any string made of
    commas and white space only, every ticker it returns is empty. *)
Theorem ticker_list_never_empty (tickers : string) :
  ticker_list EmptyString = [EmptyString] /\
  ticker_list tickers <> [] /\
  (blank tickers = true ->
   Forall (fun t => t = EmptyString) (ticker_list tickers)).
Proof.
  split; [reflexivity |]. split.
  - unfold ticker_list. intros H. apply map_eq_nil in H.
    now apply split_comma_not_nil in H.
  - intros Hb. unfold ticker_list. apply Forall_map.
    eapply Forall_impl; [| apply split_comma_blank; exact Hb].
    intros p Hp. unfold strip. now rewrite lstrip_spaces.
Qed.

Lemma ticker_list_never_empty_witness :
  blank " , ,"%string = true /\
  Forall (fun t => t = EmptyString) (ticker_list " , ,"%string).
Proof.
  split; [reflexivity |].
  apply (ticker_list_never_empty " , ,"%string). reflexivity.
Defined.

Example ticker_list_default :
  ticker_list " aapl,Tsla ,GOOGL"%string = ["AAPL"; "TSLA"; "GOOGL"]%string.
Proof. reflexivity. Qed.

Example ticker_list_commas :
  ticker_list " , ,"%string = [""; ""; ""]%string.
Proof. reflexivity. Qed.

(** ** The monad *)

Lemma bind_ok {A B : Type} (m : M A) (k : A -> M B) (w w' : world) (a : A) :
  m w = (inr a, w') -> bind m k w = k a w'.
Proof. intros H. unfold bind. now rewrite H. Qed.

Lemma bind_raise {A B : Type} (m : M A) (k : A -> M B) (w w' : world) (e : exception) :
  m w = (inl e, w') -> bind m k w = (inl e, w').
Proof. intros H. unfold bind. now rewrite H. Qed.

Lemma st_then {B : Type} (wd : widget) (k : M B) (c : nat) (scr : list widget) :
  (st wd ;;; k) (World c scr) = k (World c (scr ++ [wd])).
Proof. reflexivity. Qed.

Lemma quiet_ret {A : Type} (a : A) : quiet (ret a).
Proof. now intros w. Qed.

Lemma quiet_raise {A : Type} (e : exception) : quiet (@raise A e).
Proof. now intros w. Qed.

Lemma quiet_bind {A B : Type} (m : M A) (k : A -> M B) :
  quiet m -> (forall a, quiet (k a)) -> quiet (bind m k).
Proof.
  intros Hm Hk w. unfold bind. specialize (Hm w).
  destruct (m w) as [[e | a] w']; simpl in *; [assumption |].
  now rewrite Hk.
Qed.

Lemma quiet_index {A : Type} (xs : list A) (i : nat) : quiet (index xs i).
Proof. unfold index. destruct (nth_error xs i); [apply quiet_ret | apply quiet_raise]. Qed.

Lemma quiet_mapM {A B : Type} (f : A -> M B) (xs : list A) :
  (forall x, quiet (f x)) -> quiet (mapM f xs).
Proof.
  intros Hf. induction xs as [| x xs IH]; simpl; [apply quiet_ret |].
  apply quiet_bind; [apply Hf | intros y].
  apply quiet_bind; [apply IH | intros ys; apply quiet_ret].
Qed.

Lemma quiet_set_column (cols : list (nat * list float64)) (x : nat) (vals : list float64) :
  quiet (set_column cols x vals).
Proof.
  unfold set_column. destruct cols as [| [k v] cols]; [apply quiet_ret |].
  destruct (length vals =? length v); [apply quiet_ret | apply quiet_raise].
Qed.

Lemma quiet_iloc_last (df : DataFrame) : quiet (iloc_last df).
Proof. unfold iloc_last. destruct (rev (rows df)); [apply quiet_raise | apply quiet_ret]. Qed.

Section RunFacts.

Variable standard_normal : nat -> R.
Variable fm : fill_method.

Lemma quiet_normal (loc : float64) (scale : Series) (size : nat) :
  quiet (normal standard_normal loc scale size).
Proof. intros w. unfold normal. now destruct (existsb ltz scale). Qed.

Lemma quiet_inner_loop (vol : Series) (lp : list float64) (ys : list nat) :
  forall ps count, quiet (inner_loop standard_normal vol lp ys ps count).
Proof.
  induction ys as [| y ys IH]; simpl; intros ps count; [apply quiet_ret |].
  destruct (count =? 251); [apply quiet_ret |].
  apply quiet_bind; [apply quiet_index | intros prev].
  apply quiet_bind; [apply quiet_normal | intros draws]. apply IH.
Qed.

Lemma quiet_getitem_0 (p : list float64) : quiet (getitem_0 fm p).
Proof. unfold getitem_0. destruct fm; [apply quiet_index | apply quiet_raise]. Qed.

Lemma quiet_outer_loop (dr : DataFrame) (lp : list float64) (xs : list nat) :
  forall cols, quiet (outer_loop standard_normal fm dr lp xs cols).
Proof.
  induction xs as [| x xs IH]; cbn [outer_loop]; intros cols; [apply quiet_ret |].
  apply quiet_bind; [apply quiet_normal | intros draws].
  apply quiet_bind; [apply quiet_inner_loop | intros ps].
  apply quiet_bind; [apply quiet_mapM, quiet_getitem_0 | intros col].
  apply quiet_bind; [apply quiet_set_column | intros cols']. apply IH.
Qed.

Lemma quiet_simulate (sd dr : DataFrame) : quiet (simulate standard_normal fm sd dr).
Proof.
  unfold simulate. apply quiet_bind; [apply quiet_iloc_last | intros lp].
  apply quiet_outer_loop.
Qed.

Lemma report_run (sd : DataFrame) (w : world) :
  report standard_normal fm sd w =
  match simulate standard_normal fm sd (daily_returns fm sd)
          (World (cursor w) (screen w ++ preamble fm sd)) with
  | (inl e, w') => (inl e, w')
  | (inr sim, w') => (inr tt, World (cursor w') (screen w' ++ finale sim))
  end.
Proof.
  destruct w as [c scr]. unfold report. cbv zeta.
  rewrite !st_then. cbn [cursor screen].
  repeat rewrite <- app_assoc. cbn [app]. unfold preamble. cbv zeta.
  unfold bind at 1.
  destruct (simulate _ _ _ _) as [[e | sim] [c' scr']]; [reflexivity |].
  rewrite st_then. unfold st, finale. cbn [cursor screen].
  rewrite <- app_assoc. reflexivity.
Qed.

Lemma report_page (sd : DataFrame) (w : world) :
  exists res c page,
    report standard_normal fm sd w =
      (res, World c (screen w ++ success "Data loaded successfully!" :: page)) /\
    existsb is_error page = false.
Proof.
  rewrite report_run.
  pose proof (quiet_simulate sd (daily_returns fm sd)
                (World (cursor w) (screen w ++ preamble fm sd))) as Hq.
  destruct (simulate _ _ _ _) as [[e | sim] [c scr]]; cbn [snd screen] in *; subst scr.
  - exists (inl e), c, (List.tl (preamble fm sd)). split; reflexivity.
  - exists (inr tt), c, (List.tl (preamble fm sd) ++ finale sim). split.
    + cbn [cursor screen]. rewrite <- app_assoc. reflexivity.
    + reflexivity.
Qed.

End RunFacts.

(** ** The empty-table guard *)

(** C2: when the fetched price table is empty the run draws the one error
    message and stops, with no other widget drawn and no random number
    consumed; when it is not empty the page starts with the success message
    and carries no error message. *)
Theorem no_data_halts (standard_normal : nat -> R)
  (yf_download : list string -> date -> date -> DataFrame) (fm : fill_method)
  (tickers : string) (start_date end_date : date) (w : world) :
  let stock_data := get_data yf_download (ticker_list tickers) start_date end_date in
  (empty stock_data = true ->
   analyze standard_normal yf_download fm tickers start_date end_date w =
     (inr tt,
      World (cursor w)
            (screen w ++ [error "No data found. Please check ticker symbols."]))) /\
  (empty stock_data = false ->
   exists res c page,
     analyze standard_normal yf_download fm tickers start_date end_date w =
       (res, World c (screen w ++ success "Data loaded successfully!" :: page)) /\
     existsb is_error page = false).
Proof.
  intros stock_data. unfold analyze. fold stock_data. split; intros He; rewrite He.
  - reflexivity.
  - apply report_page.
Qed.

Lemma no_data_halts_witness :
  analyze (fun _ => 0%R) (always no_table) pad "AAPL" 0 1 blank_page =
    (inr tt, World 0 [error "No data found. Please check ticker symbols."]) /\
  exists res c page,
    analyze (fun _ => 0%R) (always aapl_prices) pad "AAPL" 0 1 blank_page =
      (res, World c (success "Data loaded successfully!" :: page)) /\
    existsb is_error page = false.
Proof.
  split.
  - apply (no_data_halts (fun _ => 0%R) (always no_table) pad "AAPL" 0 1 blank_page).
    reflexivity.
  - apply (no_data_halts (fun _ => 0%R) (always aapl_prices) pad "AAPL" 0 1 blank_page).
    reflexivity.
Defined.

(** ** The random walk *)

Lemma existsb_map_false {A B : Type} (f : A -> B) (p : B -> bool) (xs : list A) :
  (forall x, p (f x) = false) -> existsb p (map f xs) = false.
Proof. intros H. induction xs; simpl; [reflexivity |]. now rewrite H. Qed.

Lemma frame_std_not_negative (df : DataFrame) : existsb ltz (frame_std df) = false.
Proof. unfold frame_std. apply existsb_map_false. intros j. apply sqrt_not_negative. Qed.

Lemma frame_std_length (df : DataFrame) : length (frame_std df) = length (columns df).
Proof. unfold frame_std. now rewrite length_map, length_seq. Qed.

Lemma frame_std_nth (df : DataFrame) (j : nat) :
  j < length (columns df) ->
  nth j (frame_std df) NaN = std (column j (rows df)).
Proof.
  intros Hj. unfold frame_std.
  rewrite nth_indep with (d' := std (column 0 (rows df)))
    by (now rewrite length_map, length_seq).
  rewrite (map_nth (fun j => std (column j (rows df)))), seq_nth by assumption.
  reflexivity.
Qed.

Lemma assign_fresh (x : nat) (vals : list float64) (cols : list (nat * list float64)) :
  Forall (fun kv => fst kv <> x) cols -> assign x vals cols = cols ++ [(x, vals)].
Proof.
  induction cols as [| [k v] cols IH]; simpl; intros H; [reflexivity |].
  inversion H; subst. simpl in *.
  destruct (Nat.eqb_spec k x); [contradiction |]. f_equal. auto.
Qed.

Lemma mapM_first (ps : list (list float64)) (w : world) :
  Forall (fun p => p <> []) ps ->
  mapM (getitem_0 pad) ps w = (inr (map (fun p => nth 0 p NaN) ps), w).
Proof.
  induction ps as [| p ps IH]; intros H; [reflexivity |].
  inversion H; subst. cbn [mapM map].
  destruct p as [| v p]; [easy |].
  unfold bind at 1. cbn. unfold bind at 1. now rewrite IH.
Qed.

Lemma mapM_label_lookup (ps : list (list float64)) (w : world) :
  ps <> [] -> mapM (getitem_0 no_fill) ps w = (inl KeyError, w).
Proof. destruct ps as [| p ps]; [easy | reflexivity]. Qed.

Lemma iloc_last_run (df : DataFrame) (w : world) :
  rows df <> [] -> iloc_last df w = (inr (last_cells df), w).
Proof.
  unfold iloc_last, last_cells. intros H.
  destruct (rows df) as [| r rs] using rev_ind; [easy |].
  rewrite rev_app_distr, last_last. reflexivity.
Qed.

Section Walk.

Variable standard_normal : nat -> R.
Variable dr : DataFrame.
Variable last_price : list float64.

Lemma normal_run (w : world) :
  normal standard_normal (Fin 0) (frame_std dr) (length last_price) w =
    (inr (gauss_draw standard_normal (frame_std dr) (length last_price) (cursor w)),
     World (cursor w + length last_price) (screen w)).
Proof.
  unfold normal. now rewrite frame_std_not_negative.
Qed.

Lemma walk_length (steps n : nat) (price : list float64) :
  length (walk standard_normal (frame_std dr) (length last_price) steps n price) = steps.
Proof.
  revert n price; induction steps as [| m IH]; intros; simpl; auto.
Qed.

Lemma gauss_draw_length (n : nat) :
  length (frame_std dr) = length last_price ->
  length (gauss_draw standard_normal (frame_std dr) (length last_price) n) = length last_price.
Proof.
  intros H. unfold gauss_draw.
  rewrite zip_with_length, length_map, length_seq. lia.
Qed.

Lemma perturb_length (price draws : list float64) :
  length (perturb price draws) = Nat.min (length price) (length draws).
Proof. unfold perturb. now rewrite zip_with_length, length_map. Qed.

Lemma walk_widths (steps n : nat) (price : list float64) :
  length (frame_std dr) = length last_price -> length price = length last_price ->
  Forall (fun p => length p = length last_price)
         (walk standard_normal (frame_std dr) (length last_price) steps n price).
Proof.
  intros Hv. revert n price; induction steps as [| m IH]; intros n price Hp;
    cbn [walk]; constructor.
  - rewrite perturb_length, gauss_draw_length by assumption. lia.
  - apply IH. rewrite perturb_length, gauss_draw_length by assumption. lia.
Qed.

Lemma inner_loop_run (ys : list nat) :
  forall (ps : list (list float64)) (p : list float64) (count : nat) (w : world),
    length ps = count -> count <= 251 ->
    inner_loop standard_normal (frame_std dr) last_price ys (ps ++ [p]) count w =
      let m := Nat.min (length ys) (251 - count) in
      (inr ((ps ++ [p]) ++ walk standard_normal (frame_std dr) (length last_price) m (cursor w) p),
       World (cursor w + m * length last_price) (screen w)).
Proof.
  induction ys as [| y ys IH]; intros ps p count [c scr] Hl Hc; cbn [inner_loop].
  - cbn [length Nat.min walk Nat.mul cursor screen]. unfold ret.
    rewrite app_nil_r, Nat.add_0_r. reflexivity.
  - destruct (Nat.eqb_spec count 251) as [E | E].
    + replace (251 - count) with 0 by lia. rewrite Nat.min_0_r.
      cbn [walk Nat.mul cursor screen]. unfold ret.
      rewrite app_nil_r, Nat.add_0_r. reflexivity.
    + assert (Hi : index (ps ++ [p]) count (World c scr) = (inr p, World c scr)).
      { unfold index. rewrite nth_error_app2 by lia.
        replace (count - length ps) with 0 by lia. reflexivity. }
      erewrite bind_ok by exact Hi.
      erewrite bind_ok by apply normal_run.
      rewrite IH by (try rewrite length_app; cbn [length]; lia).
      cbn [cursor screen length]. cbv zeta.
      replace (251 - count) with (S (251 - (count + 1))) by lia.
      rewrite <- Nat.succ_min_distr. cbn [walk Nat.mul].
      rewrite <- app_assoc. cbn [app]. do 2 f_equal. lia.
Qed.

Lemma price_series_run (price : list float64) (w : world) :
  inner_loop standard_normal (frame_std dr) last_price (seq 0 num_days) [price] 0 w =
    (inr (price :: walk standard_normal (frame_std dr) (length last_price) 251 (cursor w) price),
     World (cursor w + 251 * length last_price) (screen w)).
Proof.
  change [price] with ([] ++ [price]).
  rewrite inner_loop_run by (cbn [length]; lia).
  rewrite length_seq. change (Nat.min num_days (251 - 0)) with 251.
  reflexivity.
Qed.

Lemma outer_loop_label_lookup (x : nat) (xs : list nat)
  (cols : list (nat * list float64)) (w : world) :
  outer_loop standard_normal no_fill dr last_price (x :: xs) cols w =
    (inl KeyError, World (cursor w + num_days * length last_price) (screen w)).
Proof.
  destruct w as [c scr]. cbn [outer_loop].
  erewrite bind_ok by apply normal_run.
  erewrite bind_ok by apply price_series_run.
  erewrite bind_raise by (apply mapM_label_lookup; discriminate).
  cbn [cursor screen]. do 2 f_equal. unfold num_days. lia.
Qed.

Hypothesis vol_size : length (frame_std dr) = length last_price.
Hypothesis some_ticker : length last_price <> 0.

Lemma path_column_length (n : nat) :
  length (path_column standard_normal (frame_std dr) last_price n) = num_days.
Proof. unfold path_column. now rewrite length_map, walk_length. Qed.

Lemma simulation_table_S (n a : nat) :
  simulation_table standard_normal (frame_std dr) last_price n (S a) =
  simulation_table standard_normal (frame_std dr) last_price n a
    ++ [(a, path_column standard_normal (frame_std dr) last_price
              (n + a * (num_days * length last_price)))].
Proof. unfold simulation_table. rewrite seq_S, map_app. reflexivity. Qed.

Lemma set_column_run (n a : nat) (w : world) :
  set_column (simulation_table standard_normal (frame_std dr) last_price n a) a
             (path_column standard_normal (frame_std dr) last_price
                (n + a * (num_days * length last_price))) w =
    (inr (simulation_table standard_normal (frame_std dr) last_price n (S a)), w).
Proof.
  rewrite simulation_table_S. unfold set_column.
  destruct a as [| a]; [reflexivity |].
  remember (S a) as b eqn:Eb.
  assert (Hk : Forall (fun kv => fst kv <> b)
                 (simulation_table standard_normal (frame_std dr) last_price n b)).
  { unfold simulation_table. apply Forall_map, Forall_forall.
    intros x Hx. apply in_seq in Hx. simpl. lia. }
  rewrite <- assign_fresh by exact Hk.
  destruct (simulation_table standard_normal (frame_std dr) last_price n b)
    as [| [k v] cols] eqn:Et.
  - subst b. discriminate Et.
  - assert (Hv : length v = num_days).
    { subst b. unfold simulation_table in Et. cbn [seq map] in Et.
      injection Et as _ Hv _. subst v. apply path_column_length. }
    rewrite path_column_length, Hv, Nat.eqb_refl. reflexivity.
Qed.

Lemma outer_loop_run (n0 k : nat) :
  forall (a : nat) (w : world),
    cursor w = n0 + a * (num_days * length last_price) ->
    outer_loop standard_normal pad dr last_price (seq a k)
      (simulation_table standard_normal (frame_std dr) last_price n0 a) w =
      (inr (simulation_table standard_normal (frame_std dr) last_price n0 (a + k)),
       World (cursor w + k * (num_days * length last_price)) (screen w)).
Proof.
  induction k as [| k IH]; intros a [c scr] Hc; cbn [seq outer_loop].
  - unfold ret. cbn [cursor screen]. rewrite !Nat.add_0_r. reflexivity.
  - cbn [cursor screen] in *. fold (frame_std dr). fold (length last_price).
    erewrite bind_ok by apply normal_run.
    erewrite bind_ok by apply price_series_run.
    cbn [cursor screen].
    change (perturb last_price (gauss_draw standard_normal (frame_std dr) (length last_price) c)
              :: walk standard_normal (frame_std dr) (length last_price) 251 (c + length last_price)
                   (perturb last_price (gauss_draw standard_normal (frame_std dr) (length last_price) c)))
      with (walk standard_normal (frame_std dr) (length last_price) num_days c last_price).
    erewrite bind_ok
      by (apply mapM_first;
          eapply Forall_impl; [| apply walk_widths; auto];
          intros p Hp; destruct p; [cbn in Hp; congruence | easy]).
    fold (path_column standard_normal (frame_std dr) last_price c). subst c.
    erewrite bind_ok by apply set_column_run.
    rewrite IH by (cbn [cursor]; unfold num_days; lia).
    cbn [cursor screen]. f_equal.
    + do 2 f_equal. lia.
    + f_equal. unfold num_days. lia.
Qed.

End Walk.

Lemma map_nth_seq {A : Type} (d : A) (l : list A) :
  map (fun t => nth t l d) (seq 0 (length l)) = l.
Proof.
  induction l as [| a l IH]; [reflexivity |].
  cbn [length seq map nth]. f_equal.
  rewrite <- seq_shift, map_map. exact IH.
Qed.

Lemma walk_S (sn : nat -> R) (vol : Series) (size steps n : nat) (price : list float64) :
  walk sn vol size (S steps) n price =
    perturb price (gauss_draw sn vol size n)
      :: walk sn vol size steps (n + size) (perturb price (gauss_draw sn vol size n)).
Proof. reflexivity. Qed.

Lemma walk_nth_0 (sn : nat -> R) (vol : Series) (size steps n : nat) (price : list float64) :
  nth 0 (walk sn vol size (S steps) n price) [] = perturb price (gauss_draw sn vol size n).
Proof. reflexivity. Qed.

Lemma walk_nth_S (sn : nat -> R) (vol : Series) (size : nat) (t : nat) :
  forall (steps n : nat) (price : list float64),
    S t < steps ->
    nth (S t) (walk sn vol size steps n price) [] =
      perturb (nth t (walk sn vol size steps n price) [])
              (gauss_draw sn vol size (n + S t * size)).
Proof.
  induction t as [| t IH]; intros steps n price Ht.
  - destruct steps as [| [| steps]]; try lia.
    rewrite !walk_S. cbn [nth]. do 2 f_equal. lia.
  - destruct steps as [| steps]; [lia |].
    rewrite walk_S. cbn [nth]. rewrite IH by lia. do 2 f_equal. lia.
Qed.

Lemma daily_returns_columns (fm : fill_method) (df : DataFrame) :
  columns (daily_returns fm df) = columns df.
Proof. reflexivity. Qed.

Lemma last_cells_length (df : DataFrame) :
  rows df <> [] -> well_formed df -> length (last_cells df) = length (columns df).
Proof.
  unfold well_formed, last_cells. intros Hr Hw.
  rewrite Forall_forall in Hw. apply Hw.
  destruct (exists_last Hr) as [rs [r E]]. rewrite E, last_last.
  apply in_or_app. right. now left.
Qed.

(** Up to pandas 2 the simulation returns the table of the 50 walks. *)
Lemma simulate_run (sn : nat -> R) (sd : DataFrame) (w : world) :
  empty sd = false -> well_formed sd ->
  simulate sn pad sd (daily_returns pad sd) w =
    (inr (simulation_table sn (frame_std (daily_returns pad sd)) (last_cells sd)
            (cursor w) num_simulations),
     World (cursor w + num_simulations * (num_days * length (last_cells sd)))
           (screen w)).
Proof.
  intros He Hw. apply empty_false in He as [Hc Hr].
  pose proof (last_cells_length sd Hr Hw) as Hl.
  unfold simulate. erewrite bind_ok by (apply iloc_last_run; exact Hr).
  change (@nil (nat * list float64))
    with (simulation_table sn (frame_std (daily_returns pad sd)) (last_cells sd)
            (cursor w) 0).
  rewrite (outer_loop_run sn (daily_returns pad sd) (last_cells sd)).
  - reflexivity.
  - now rewrite frame_std_length, daily_returns_columns.
  - rewrite Hl. destruct (columns sd); easy.
  - lia.
Qed.

(** Under pandas 3 the first path is computed, 252 draws of one variate per
    ticker, and the label lookup of line 128 stops the run. *)
Lemma simulate_label_lookup (sn : nat -> R) (sd dr : DataFrame) (w : world) :
  rows sd <> [] ->
  simulate sn no_fill sd dr w =
    (inl KeyError, World (cursor w + num_days * length (last_cells sd)) (screen w)).
Proof.
  intros Hr. unfold simulate. erewrite bind_ok by (apply iloc_last_run; exact Hr).
  change (seq 0 num_simulations) with (0 :: seq 1 49).
  apply outer_loop_label_lookup.
Qed.

(** ** The simulated paths *)

Lemma perturb_nth (price draws : list float64) (i : nat) :
  i < length price -> i < length draws ->
  nth i (perturb price draws) NaN = (nth i price NaN * (one + nth i draws NaN))%fl.
Proof.
  intros Hp Hd. unfold perturb.
  rewrite (zip_with_nth mul NaN (one + NaN)%fl NaN)
    by (rewrite ?length_map; assumption).
  now rewrite (map_nth (add one)).
Qed.

Lemma gauss_draw_nth (sn : nat -> R) (vol : Series) (size n i : nat) :
  i < length vol -> i < size ->
  nth i (gauss_draw sn vol size n) NaN =
    (Fin 0 + nth i vol NaN * Fin (sn (n + i)%nat))%fl.
Proof.
  intros Hv Hs. unfold gauss_draw.
  rewrite (zip_with_nth (fun s z => (Fin 0 + s * z)%fl) NaN (Fin (sn (n + 0))) NaN)
    by (rewrite ?length_map, ?length_seq; assumption).
  rewrite (map_nth (fun i => Fin (sn (n + i)))), seq_nth by assumption.
  reflexivity.
Qed.

Lemma ticker_list_not_nil (tickers : string) : ticker_list tickers <> [].
Proof.
  unfold ticker_list. intros H. apply map_eq_nil in H.
  now apply split_comma_not_nil in H.
Qed.



(** ** Shape and sign of the simulation table *)

Lemma above_minus_one_positive (d : float64) :
  above_minus_one d -> positive (one + d)%fl.
Proof. destruct d as [| neg | r]; cbn; try easy. lra. Qed.

Lemma positive_not_negative (v : float64) : positive v -> not_negative v.
Proof.
  destruct v as [| neg | r]; cbn; [easy | intros ->; now split |].
  intros Hr. split; [reflexivity | apply Rneg_ge; lra].
Qed.

Lemma gauss_draw_size (sn : nat -> R) (vol : Series) (size n : nat) :
  length (gauss_draw sn vol size n) = Nat.min (length vol) size.
Proof. unfold gauss_draw. now rewrite zip_with_length, length_map, length_seq. Qed.

(** The price of the first ticker stays positive along a walk whose draws
    for that ticker are all above -1, whatever happens to the others. *)
Lemma walk_first_positive (sn : nat -> R) (vol : Series) (size steps : nat) :
  length vol = size -> 0 < size ->
  forall (n : nat) (price : list float64),
    length price = size ->
    positive (nth 0 price NaN) ->
    (forall t, t < steps ->
       above_minus_one (Fin 0 + nth 0 vol NaN * Fin (sn (n + t * size)%nat))%fl) ->
    Forall (fun p => positive (nth 0 p NaN)) (walk sn vol size steps n price).
Proof.
  intros Hv Hs. induction steps as [| m IH]; intros n price Hl Hp Hd;
    cbn [walk]; constructor.
  - rewrite perturb_nth, gauss_draw_nth by (rewrite ?gauss_draw_size; lia).
    apply mul_fin_pos; [exact Hp |]. apply above_minus_one_positive.
    specialize (Hd 0). cbn [Nat.mul] in Hd. apply Hd. lia.
  - apply IH.
    + rewrite perturb_length, gauss_draw_size. lia.
    + rewrite perturb_nth, gauss_draw_nth by (rewrite ?gauss_draw_size; lia).
      apply mul_fin_pos; [exact Hp |]. apply above_minus_one_positive.
      specialize (Hd 0). cbn [Nat.mul] in Hd. apply Hd. lia.
    + intros t Ht. specialize (Hd (S t)).
      replace (n + size + t * size) with (n + S t * size) by lia.
      apply Hd. lia.
Qed.

Lemma simulation_table_length (sn : nat -> R) (vol : Series) (lp : list float64)
  (n paths : nat) : length (simulation_table sn vol lp n paths) = paths.
Proof. unfold simulation_table. now rewrite length_map, length_seq. Qed.

(** C5, as amended: up to pandas 2, on a non-empty, well-formed price table
    with [K] tickers the simulation table has exactly 50 columns of 252 rows
    each, for every sequence of variates; when moreover the last price of the
    first column is positive and every draw the run applies to that column,
    [0 + daily_vol 0 * z] for the variate [z] at position [(x * 252 + t) * K]
    after the cursor, is a finite number greater than -1, every value in the
    table is a number that is not negative. *)
Theorem simulation_shape_and_sign (standard_normal : nat -> R)
  (stock_data : DataFrame) (w : world) :
  empty stock_data = false ->
  well_formed stock_data ->
  let daily_vol := frame_std (daily_returns pad stock_data) in
  let last_price := last_cells stock_data in
  let K := length (columns stock_data) in
  exists sim w',
    simulate standard_normal pad stock_data (daily_returns pad stock_data) w
      = (inr sim, w') /\
    length sim = 50 /\
    Forall (fun col => length (snd col) = 252) sim /\
    (positive (nth 0 last_price NaN) ->
     (forall x t, x < 50 -> t < 252 ->
        above_minus_one
          (Fin 0 + nth 0 daily_vol NaN
                   * Fin (standard_normal (cursor w + (x * 252 + t) * K)%nat))%fl) ->
     Forall (fun col => Forall not_negative (snd col)) sim).
Proof.
  intros He Hw daily_vol last_price K.
  pose proof (empty_false stock_data He) as [Hc Hr].
  pose proof (last_cells_length stock_data Hr Hw) as Hl.
  fold last_price in Hl. fold K in Hl.
  assert (HK : 0 < K) by (unfold K; destruct (columns stock_data); [easy | cbn; lia]).
  eexists. eexists. split; [apply simulate_run; assumption |].
  split; [apply simulation_table_length |]. split.
  - unfold simulation_table. apply Forall_map, Forall_forall. intros x _.
    cbn [snd]. unfold path_column. now rewrite length_map, walk_length.
  - intros Hp Hd. unfold simulation_table. apply Forall_map, Forall_forall.
    intros x Hx. apply in_seq in Hx. cbn [snd]. unfold path_column.
    apply Forall_map. fold last_price. fold daily_vol.
    eapply Forall_impl; [intros p; apply positive_not_negative |].
    apply walk_first_positive.
    + unfold daily_vol. rewrite frame_std_length, daily_returns_columns.
      symmetry. exact Hl.
    + lia.
    + reflexivity.
    + exact Hp.
    + intros t Ht.
      replace (cursor w + x * (num_days * length last_price) + t * length last_price)
        with (cursor w + (x * 252 + t) * K) by (unfold num_days; nia).
      apply Hd; [unfold num_simulations in Hx; lia | exact Ht].
Qed.

(** ** Moments of finite series *)

Lemma fold_add_fin (rs : list R) (a : R) :
  fold_left add (map Fin rs) (Fin a) = Fin (a + Rsum rs).
Proof.
  revert a; induction rs as [| r rs IH]; intros a; cbn [map fold_left Rsum fold_right].
  - f_equal. lra.
  - cbn [add]. rewrite IH. f_equal. unfold Rsum. lra.
Qed.

Lemma fsum_fin (rs : list R) : fsum (map Fin rs) = Fin (Rsum rs).
Proof. unfold fsum. rewrite fold_add_fin. f_equal. lra. Qed.

Lemma notna_fin (rs : list R) : notna (map Fin rs) = map Fin rs.
Proof.
  unfold notna. induction rs as [| r rs IH]; cbn; [reflexivity |]. now rewrite IH.
Qed.

Lemma INR_two (n : nat) : 2 <= n -> (2 <= INR n)%R.
Proof. intros H. apply le_INR in H. simpl in H. lra. Qed.

Lemma Rsum_squares_nonneg {A : Type} (f : A -> R) (rs : list A) :
  (0 <= Rsum (map (fun x => f x * f x) rs))%R.
Proof.
  induction rs as [| r rs IH]; cbn; [lra |].
  pose proof (Rle_0_sqr (f r)) as H. unfold Rsqr in H. unfold Rsum in IH. lra.
Qed.

Lemma ssq_nonneg (rs : list R) : (0 <= ssq rs)%R.
Proof. unfold ssq. apply Rsum_squares_nonneg with (f := fun x => (x - mean rs)%R). Qed.

Lemma var_fin (rs : list R) :
  2 <= length rs ->
  var (map Fin rs) = Fin (ssq rs / (INR (length rs) - 1)).
Proof.
  intros Hn. pose proof (INR_two _ Hn) as Hr.
  unfold var. rewrite notna_fin, length_map.
  destruct (Nat.leb_spec (length rs) 1); [lia |].
  rewrite fsum_fin, div_fin by lra. rewrite map_map. cbn [sub opp add mul].
  rewrite <- (map_map (fun x => ((Rsum rs / INR (length rs) + - x) *
                                 (Rsum rs / INR (length rs) + - x))%R) Fin).
  rewrite fsum_fin, div_fin by lra. do 2 f_equal.
  unfold ssq, mean. f_equal. apply map_ext. intros x. ring.
Qed.

Lemma std_fin (rs : list R) :
  2 <= length rs ->
  std (map Fin rs) = Fin (R_sqrt.sqrt (ssq rs / (INR (length rs) - 1))).
Proof.
  intros Hn. pose proof (INR_two _ Hn) as Hr. pose proof (ssq_nonneg rs) as Hs.
  unfold std. rewrite var_fin by assumption. cbn [Float.sqrt].
  rewrite Rneg_ge; [reflexivity |].
  apply Rmult_le_pos; [assumption |]. left. apply Rinv_0_lt_compat. lra.
Qed.

Lemma std_short (xs : list float64) : length xs <= 1 -> std xs = NaN.
Proof.
  intros H. unfold std, var.
  assert (Hl : length (notna xs) <= length xs) by apply filter_length_le.
  destruct (Nat.leb_spec (length (notna xs)) 1); [reflexivity | lia].
Qed.

(** ** The two sample tables *)

Lemma aapl_daily_returns (fm : fill_method) :
  daily_returns fm aapl_prices =
    Frame ["AAPL"%string]
          [Row 1 [Fin (101 / 100 - 1)]; Row 2 [Fin (99 / 101 - 1)];
           Row 3 [Fin (102 / 99 - 1)]; Row 4 [Fin (103 / 102 - 1)]].
Proof.
  unfold daily_returns, dropna. f_equal.
  change (filter complete (rows (pct_change fm aapl_prices)))
    with (rows (daily_returns fm aapl_prices)).
  rewrite daily_returns_quoted; [| reflexivity | quotes | quotes].
  cbn. rewrite !change_fin by lra. reflexivity.
Qed.

Lemma risky_daily_returns (fm : fill_method) :
  daily_returns fm risky_prices =
    Frame ["AAPL"%string]
          [Row 1 [Fin (1 / 1 - 1)]; Row 2 [Fin (2 / 1 - 1)]; Row 3 [Fin (6 / 2 - 1)]].
Proof.
  unfold daily_returns, dropna. f_equal.
  change (filter complete (rows (pct_change fm risky_prices)))
    with (rows (daily_returns fm risky_prices)).
  rewrite daily_returns_quoted; [| reflexivity | quotes | quotes].
  cbn. rewrite !change_fin by lra. reflexivity.
Qed.

Lemma risky_volatility (fm : fill_method) :
  frame_std (daily_returns fm risky_prices) = [Fin 1].
Proof.
  rewrite risky_daily_returns. unfold frame_std. cbn [columns rows length seq map column nth cells].
  change [Fin (1 / 1 - 1); Fin (2 / 1 - 1); Fin (6 / 2 - 1)]
    with (map Fin [1 / 1 - 1; 2 / 1 - 1; 6 / 2 - 1]%R).
  rewrite std_fin by (cbn; lia).
  replace (ssq [1 / 1 - 1; 2 / 1 - 1; 6 / 2 - 1] /
           (INR (length [1 / 1 - 1; 2 / 1 - 1; 6 / 2 - 1]%R) - 1))%R with 1%R.
  - now rewrite sqrt_1.
  - unfold ssq, mean, Rsum. cbn [length map fold_right INR]. field.
Qed.

Lemma simulation_shape_and_sign_witness :
  exists sim w',
    simulate (fun n => INR n) pad risky_prices (daily_returns pad risky_prices)
      blank_page = (inr sim, w') /\
    length sim = 50 /\
    Forall (fun col => length (snd col) = 252) sim /\
    Forall (fun col => Forall not_negative (snd col)) sim.
Proof.
  destruct (simulation_shape_and_sign (fun n => INR n) risky_prices blank_page)
    as (sim & w' & Hrun & Hcols & Hrows & Hsign); [reflexivity | quotes |].
  exists sim, w'. repeat split; try assumption.
  apply Hsign.
  - cbn. lra.
  - intros x t _ _. rewrite risky_volatility. cbn [nth add mul above_minus_one].
    match goal with |- (-1 < 0 + 1 * INR ?n)%R => pose proof (pos_INR n) end.
    lra.
Defined.

Lemma simulation_table_first (sn : nat -> R) (vol : Series) (lp : list float64)
  (n k : nat) :
  nth 0 (snd (nth 0 (simulation_table sn vol lp n (S k)) (0, []))) NaN =
    nth 0 (perturb lp (gauss_draw sn vol (length lp) (n + 0))) NaN.
Proof.
  unfold simulation_table. cbn [seq map nth snd Nat.mul].
  unfold path_column. change num_days with (S 251). rewrite walk_S. reflexivity.
Qed.

Lemma simulation_table_first_sign (sn : nat -> R) (vol : Series) (lp : list float64)
  (n k : nat) :
  Forall (fun col => Forall positive (snd col)) (simulation_table sn vol lp n (S k)) ->
  positive (nth 0 (snd (nth 0 (simulation_table sn vol lp n (S k)) (0, []))) NaN).
Proof.
  unfold simulation_table. cbn [seq map nth snd Nat.mul]. intros H.
  apply Forall_inv in H. cbn [snd] in H. revert H.
  unfold path_column. change num_days with (S 251). rewrite walk_S.
  cbn [map nth]. apply Forall_inv.
Qed.


(** C5 fails as stated: with last price 6 and daily volatility 1, both
    positive, a variate of -2 gives the draw -2 and the first simulated
    price 6 * (1 - 2) = -6.  Under pandas 3 there is no table: the run stops
    on the KeyError of line 128 after the 252 variates of the first path. *)
Lemma simulation_sign_counterexample :
  Forall positive (last_cells risky_prices) /\
  Forall positive (frame_std (daily_returns pad risky_prices)) /\
  (exists sim w',
     simulate (fun _ => (-2)%R) pad risky_prices (daily_returns pad risky_prices)
       blank_page = (inr sim, w') /\
     nth 0 (snd (nth 0 sim (0, []))) NaN = Fin (6 * (1 + (0 + 1 * -2))) /\
     ~ Forall (fun col => Forall positive (snd col)) sim) /\
  simulate (fun _ => (-2)%R) no_fill risky_prices (daily_returns no_fill risky_prices)
    blank_page = (inl KeyError, World 252 []).
Proof.
  split; [repeat constructor; cbn; lra |].
  split; [rewrite risky_volatility; repeat constructor; cbn; lra |].
  split; [| now rewrite simulate_label_lookup].
  eexists. eexists. split; [apply simulate_run; [reflexivity | quotes] |].
  rewrite risky_volatility. change num_simulations with (S 49).
  split.
  - rewrite simulation_table_first. reflexivity.
  - intros Hall. apply simulation_table_first_sign in Hall.
    rewrite simulation_table_first in Hall. cbn in Hall. lra.
Qed.

(** ** Annualised risk *)

Lemma annualized_risk_nth (df : DataFrame) (j : nat) :
  nth j (annualized_risk df) NaN =
    (nth j (frame_std df) NaN * Fin (R_sqrt.sqrt 252) * Fin 100)%fl.
Proof.
  unfold annualized_risk.
  exact (map_nth (fun s => (s * Fin (R_sqrt.sqrt 252) * Fin 100)%fl) (frame_std df) NaN j).
Qed.

(** C3: for every returns table and every ticker [j] whose return series has
    standard deviation [sigma], the annualised risk of that ticker is
    [sigma * sqrt 252 * 100], exactly and hence within 1e-9. *)
Theorem annualized_risk_formula (daily_returns : DataFrame) (j : nat) (sigma : R) :
  j < length (columns daily_returns) ->
  std (column j (rows daily_returns)) = Fin sigma ->
  exists risk : R,
    nth j (annualized_risk daily_returns) NaN = Fin risk /\
    risk = (sigma * R_sqrt.sqrt 252 * 100)%R /\
    (Rabs (risk - sigma * R_sqrt.sqrt 252 * 100) <= 1 / 1000000000)%R.
Proof.
  intros Hj Hs. exists (sigma * R_sqrt.sqrt 252 * 100)%R.
  rewrite annualized_risk_nth, frame_std_nth, Hs by assumption.
  split; [reflexivity |]. split; [reflexivity |].
  rewrite Rminus_diag, Rabs_R0. lra.
Qed.

Lemma annualized_risk_formula_witness :
  exists risk : R,
    nth 0 (annualized_risk (daily_returns pad risky_prices)) NaN = Fin risk /\
    risk = (1 * R_sqrt.sqrt 252 * 100)%R /\
    (Rabs (risk - 1 * R_sqrt.sqrt 252 * 100) <= 1 / 1000000000)%R.
Proof.
  apply (annualized_risk_formula (daily_returns pad risky_prices) 0 1).
  - cbn. lia.
  - rewrite <- frame_std_nth by (cbn; lia). now rewrite risky_volatility.
Defined.

(** ** A single trading day *)

Lemma single_row_returns (fm : fill_method) (df : DataFrame) :
  length (rows df) = 1 -> empty df = false -> well_formed df ->
  rows (daily_returns fm df) = [].
Proof.
  intros H1 He Hw. apply empty_false in He as [Hc _]. red in Hw.
  unfold daily_returns, dropna, pct_change. cbn [rows columns].
  destruct (rows df) as [| r [| r' rs]]; try discriminate.
  assert (Hf : match fm with pad => ffill [r] | no_fill => [r] end = [r])
    by now destruct fm.
  rewrite Hf. cbn [pct_rows pct_from filter].
  rewrite first_row_dropped; [reflexivity |].
  apply Forall_inv in Hw. destruct (cells r); [| easy].
  destruct (columns df); easy.
Qed.

Lemma annualized_risk_no_rows (df : DataFrame) :
  rows df = [] -> Forall (fun r => r = NaN) (annualized_risk df).
Proof.
  intros Hr. unfold annualized_risk, frame_std. rewrite Hr.
  apply Forall_map, Forall_map, Forall_forall. intros j _. reflexivity.
Qed.



(** The run of a non-empty table under pandas 3: the 21 widgets up to the
    simulation notice, the 252 draws of the first path, and the KeyError of
    the label lookup at line 128. *)
Lemma analyze_label_lookup (sn : nat -> R)
  (yf_download : list string -> date -> date -> DataFrame)
  (tickers : string) (start_date end_date : date) (w : world) :
  let stock_data := get_data yf_download (ticker_list tickers) start_date end_date in
  empty stock_data = false ->
  analyze sn yf_download no_fill tickers start_date end_date w =
    (inl KeyError,
     World (cursor w + 252 * length (last_cells stock_data))
           (screen w ++ preamble no_fill stock_data)).
Proof.
  intros stock_data He. pose proof (empty_false stock_data He) as [_ Hr].
  unfold analyze. fold stock_data. rewrite He, report_run.
  rewrite simulate_label_lookup by exact Hr. reflexivity.
Qed.


(** ** Cumulative returns *)

Lemma pct_rows_widths (k : nat) (rs : list row) :
  Forall (fun r => length (cells r) = k) rs ->
  Forall (fun r => length (cells r) = k) (pct_rows rs).
Proof.
  destruct rs as [| r rs]; intros Hw; cbn [pct_rows]; [constructor |].
  inversion Hw; subst. constructor.
  - cbn [cells]. now rewrite length_map.
  - apply pct_from_widths; auto.
Qed.

Lemma daily_returns_well_formed (fm : fill_method) (df : DataFrame) :
  well_formed df -> well_formed (daily_returns fm df).
Proof.
  unfold well_formed, daily_returns, dropna, pct_change. cbn [rows columns].
  intros Hw.
  assert (Hf : Forall (fun r => length (cells r) = length (columns df))
                 (match fm with pad => ffill (rows df) | no_fill => rows df end)).
  { destruct fm; [| exact Hw]. destruct (rows df) as [| r rs]; [constructor |].
    inversion Hw; subst. cbn [ffill]. constructor; [assumption |].
    apply ffill_from_widths; assumption. }
  apply pct_rows_widths in Hf. rewrite Forall_forall in *.
  intros r Hin. apply filter_In in Hin as [Hin _]. now apply Hf.
Qed.

Lemma daily_returns_complete (fm : fill_method) (df : DataFrame) :
  Forall (fun r => existsb is_nan (cells r) = false) (rows (daily_returns fm df)).
Proof.
  unfold daily_returns, dropna. cbn [rows]. apply Forall_forall.
  intros r Hin. apply filter_In in Hin as [_ Hc]. unfold complete in Hc.
  now apply negb_true_iff in Hc.
Qed.

Lemma fillna_clean (cs : list float64) :
  existsb is_nan cs = false -> map fillna_one cs = cs.
Proof.
  induction cs as [| c cs IH]; cbn [map existsb]; [reflexivity |]. intros H.
  apply orb_false_iff in H as [Hc Hs]. rewrite IH by assumption.
  unfold fillna_one. now rewrite Hc.
Qed.

Lemma putmask_clean (cs acc : list float64) :
  existsb is_nan cs = false -> length acc = length cs ->
  zip_with putmask cs acc = acc.
Proof.
  revert acc; induction cs as [| c cs IH]; intros [| a acc];
    cbn [zip_with existsb length]; try easy.
  intros H Hl. apply orb_false_iff in H as [Hc Hs].
  rewrite IH by (auto; lia). unfold putmask. now rewrite Hc.
Qed.

Lemma cumprod_from_column (k j : nat) (rs : list row) :
  forall acc,
    j < k -> length acc = k ->
    Forall (fun r => length (cells r) = k) rs ->
    Forall (fun r => existsb is_nan (cells r) = false) rs ->
    column j (cumprod_from acc rs) = running_products (nth j acc NaN) (column j rs).
Proof.
  induction rs as [| r rs IH]; intros acc Hj Ha Hw Hc; [reflexivity |].
  inversion Hw; subst. inversion Hc; subst.
  cbn [cumprod_from column map running_products cells].
  rewrite fillna_clean by assumption.
  rewrite putmask_clean by (try rewrite zip_with_length; auto; lia).
  rewrite (zip_with_nth mul NaN NaN NaN) by lia.
  f_equal. fold (column j (cumprod_from (zip_with mul acc (cells r)) rs)).
  rewrite IH; auto.
  - now rewrite (zip_with_nth mul NaN NaN NaN) by lia.
  - rewrite zip_with_length. lia.
Qed.

Lemma cumprod_column (k j : nat) (df : DataFrame) :
  j < k ->
  Forall (fun r => length (cells r) = k) (rows df) ->
  Forall (fun r => existsb is_nan (cells r) = false) (rows df) ->
  column j (rows (cumprod df)) =
    match column j (rows df) with
    | [] => []
    | x :: xs => x :: running_products x xs
    end.
Proof.
  intros Hj Hw Hc. unfold cumprod. cbn [rows].
  destruct (rows df) as [| r rs]; [reflexivity |].
  inversion Hw; subst. inversion Hc; subst.
  cbn [column map cells].
  rewrite fillna_clean by assumption.
  rewrite putmask_clean by auto.
  f_equal. apply cumprod_from_column with (k := length (cells r)); auto.
Qed.

Lemma cumprod_from_days (rs : list row) :
  forall acc, map day (cumprod_from acc rs) = map day rs.
Proof.
  induction rs as [| r rs IH]; intros acc; [reflexivity |].
  cbn [cumprod_from map day]. f_equal. apply IH.
Qed.

Lemma cumulative_returns_days (df : DataFrame) :
  map day (rows (cumulative_returns df)) = map day (rows df).
Proof.
  unfold cumulative_returns, cumprod, one_plus. cbn [rows columns].
  destruct (rows df) as [| r rs]; [reflexivity |].
  cbn [map day]. f_equal. rewrite cumprod_from_days, map_map. reflexivity.
Qed.

Lemma running_products_nth (xs : list float64) :
  forall (acc : float64) (k : nat),
    k < length xs ->
    nth k (running_products acc xs) NaN = fold_left mul (firstn (S k) xs) acc.
Proof.
  induction xs as [| x xs IH]; intros acc k Hk; cbn [length] in Hk; [lia |].
  destruct k as [| k]; [reflexivity |].
  cbn [running_products nth]. rewrite IH by lia. reflexivity.
Qed.

Lemma one_plus_column (j : nat) (df : DataFrame) :
  column j (rows (one_plus df)) = map (add one) (column j (rows df)).
Proof.
  unfold one_plus, column. cbn [rows]. rewrite !map_map.
  apply map_ext. intros r. cbn [cells].
  exact (map_nth (add one) (cells r) NaN j).
Qed.

Lemma one_plus_complete (cs : list float64) :
  existsb is_nan cs = false -> existsb is_nan (map (add one) cs) = false.
Proof.
  induction cs as [| c cs IH]; cbn [map existsb]; [reflexivity |]. intros H.
  apply orb_false_iff in H as [Hc Hs]. rewrite IH by assumption.
  destruct c as [| [] |]; try discriminate; reflexivity.
Qed.

(** C7: for every price table and every ticker [j], the cumulative return
    on the [k]-th retained date is the product of [1 + daily return] over the
    retained dates up to [k]; the series keeps the dates of the returns
    table, and its value on the first retained date is one plus that date's
    return. *)
Theorem cumulative_returns_running_product (fm : fill_method)
  (stock_data : DataFrame) (j : nat) :
  well_formed stock_data ->
  j < length (columns stock_data) ->
  let dr := daily_returns fm stock_data in
  let cr := cumulative_returns dr in
  map day (rows cr) = map day (rows dr) /\
  (forall k, k < length (rows dr) ->
     nth k (column j (rows cr)) NaN =
       product_upto (map (add one) (column j (rows dr))) k) /\
  (forall r rs, rows dr = r :: rs ->
     nth 0 (column j (rows cr)) NaN = (one + nth j (cells r) NaN)%fl).
Proof.
  intros Hw Hj dr cr.
  pose proof (daily_returns_well_formed fm stock_data Hw) as Hwd.
  pose proof (daily_returns_complete fm stock_data) as Hcd.
  fold dr in Hwd, Hcd. unfold well_formed in Hwd.
  change (columns dr) with (columns stock_data) in Hwd.
  assert (Hcol : column j (rows cr) =
            match map (add one) (column j (rows dr)) with
            | [] => []
            | x :: xs => x :: running_products x xs
            end).
  { unfold cr, cumulative_returns. rewrite <- one_plus_column.
    apply cumprod_column with (k := length (columns stock_data)); [assumption | |].
    - unfold one_plus. cbn [rows]. apply Forall_map.
      eapply Forall_impl; [| exact Hwd].
      intros a Ha. cbn [cells]. now rewrite length_map.
    - unfold one_plus. cbn [rows]. apply Forall_map.
      eapply Forall_impl; [| exact Hcd].
      intros a Ha. cbn [cells]. now apply one_plus_complete. }
  split; [| split].
  - apply cumulative_returns_days.
  - intros k Hk. rewrite Hcol. unfold product_upto.
    assert (Hl : length (map (add one) (column j (rows dr))) = length (rows dr))
      by (unfold column; now rewrite !length_map).
    destruct (map (add one) (column j (rows dr))) as [| x xs]; cbn [length] in Hl; [lia |].
    cbn [hd List.tl]. destruct k as [| k]; [reflexivity |].
    cbn [nth]. rewrite running_products_nth by lia. reflexivity.
  - intros r rs Hr. rewrite Hcol, Hr. cbn [column map nth]. reflexivity.
Qed.

Lemma cumulative_returns_running_product_witness :
  let dr := daily_returns pad aapl_prices in
  let cr := cumulative_returns dr in
  map day (rows cr) = map day (rows dr) /\
  nth 3 (column 0 (rows cr)) NaN =
    product_upto (map (add one) (column 0 (rows dr))) 3 /\
  nth 0 (column 0 (rows cr)) NaN = (one + Fin (101 / 100 - 1))%fl.
Proof.
  destruct (cumulative_returns_running_product pad aapl_prices 0)
    as (Hdays & Hprod & Hfirst); [quotes | cbn; lia |].
  split; [exact Hdays |]. split.
  - apply Hprod. rewrite aapl_daily_returns. cbn. lia.
  - apply (Hfirst (Row 1 [Fin (101 / 100 - 1)])
                  [Row 2 [Fin (99 / 101 - 1)]; Row 3 [Fin (102 / 99 - 1)];
                   Row 4 [Fin (103 / 102 - 1)]]).
    rewrite aapl_daily_returns. reflexivity.
Defined.

(** ** The AAPL scenario *)

Lemma aapl_final_cumulative_return (fm : fill_method) :
  last_cells (cumulative_returns (daily_returns fm aapl_prices)) =
    [Fin ((1 + (101 / 100 - 1)) * (1 + (99 / 101 - 1)) * (1 + (102 / 99 - 1))
          * (1 + (103 / 102 - 1)))].
Proof. rewrite aapl_daily_returns. reflexivity. Qed.

(** C8: for the input "AAPL" and the closing prices 100, 101, 99, 102, 103
    the daily returns are within half a unit of the fourth decimal of 0.01,
    -0.0198, 0.0303 and 0.0098, and the last cumulative return is exactly
    103/100 = 1.03. *)
Theorem aapl_scenario (fm : fill_method) :
  ticker_list "AAPL" = ["AAPL"%string] /\
  columns aapl_prices = ticker_list "AAPL" /\
  exists r1 r2 r3 r4 final : R,
    rows (daily_returns fm aapl_prices) =
      [Row 1 [Fin r1]; Row 2 [Fin r2]; Row 3 [Fin r3]; Row 4 [Fin r4]] /\
    (Rabs (r1 - 100 / 10000) <= 5 / 100000)%R /\
    (Rabs (r2 - - (198 / 10000)) <= 5 / 100000)%R /\
    (Rabs (r3 - 303 / 10000) <= 5 / 100000)%R /\
    (Rabs (r4 - 98 / 10000) <= 5 / 100000)%R /\
    last_cells (cumulative_returns (daily_returns fm aapl_prices)) = [Fin final] /\
    final = (103 / 100)%R /\
    final = (1 + 3 / 100)%R.
Proof.
  split; [reflexivity |]. split; [reflexivity |].
  exists (101 / 100 - 1)%R, (99 / 101 - 1)%R, (102 / 99 - 1)%R, (103 / 102 - 1)%R.
  eexists. rewrite aapl_final_cumulative_return, aapl_daily_returns.
  split; [reflexivity |].
  repeat (split; [apply Rabs_le; lra |]).
  split; [reflexivity |]. split; field.
Qed.

(** ** Correlation *)

Section CauchySchwarz.

Variable A : Type.
Variables f g : A -> R.

Lemma quadratic_expansion (l : list A) (t : R) :
  Rsum (map (fun p => ((f p * t + g p) * (f p * t + g p))%R) l) =
    (sum_of_products f f l * t * t + 2 * sum_of_products f g l * t + sum_of_products g g l)%R.
Proof.
  unfold sum_of_products. induction l as [| p l IH]; cbn [map Rsum fold_right].
  - ring.
  - unfold Rsum in IH. rewrite IH. ring.
Qed.

Lemma quadratic_nonneg (l : list A) (t : R) :
  (0 <= sum_of_products f f l * t * t + 2 * sum_of_products f g l * t + sum_of_products g g l)%R.
Proof.
  rewrite <- quadratic_expansion.
  apply Rsum_squares_nonneg with (f := fun p => (f p * t + g p)%R).
Qed.

Lemma cauchy_schwarz (l : list A) : (sum_of_products f g l * sum_of_products f g l <= sum_of_products f f l * sum_of_products g g l)%R.
Proof.
  pose proof (quadratic_nonneg l) as H.
  assert (Hff : (0 <= sum_of_products f f l)%R) by apply Rsum_squares_nonneg.
  destruct (Req_dec (sum_of_products f f l) 0) as [Z | NZ].
  - assert (Hc : sum_of_products f g l = 0%R).
    { destruct (Req_dec (sum_of_products f g l) 0) as [E | E]; [exact E | exfalso].
      specialize (H (- (sum_of_products g g l + 1) / (2 * sum_of_products f g l))%R). rewrite Z in H.
      replace (0 * (- (sum_of_products g g l + 1) / (2 * sum_of_products f g l)) * (- (sum_of_products g g l + 1) / (2 * sum_of_products f g l)) +
               2 * sum_of_products f g l * (- (sum_of_products g g l + 1) / (2 * sum_of_products f g l)) + sum_of_products g g l)%R
        with (-1)%R in H by (field; exact E).
      lra. }
    rewrite Hc, Z. lra.
  - specialize (H (- sum_of_products f g l / sum_of_products f f l)%R).
    replace (sum_of_products f f l * (- sum_of_products f g l / sum_of_products f f l) * (- sum_of_products f g l / sum_of_products f f l) +
             2 * sum_of_products f g l * (- sum_of_products f g l / sum_of_products f f l) + sum_of_products g g l)%R
      with (sum_of_products g g l - sum_of_products f g l * sum_of_products f g l / sum_of_products f f l)%R in H by (field; exact NZ).
    replace (sum_of_products f g l * sum_of_products f g l)%R with (sum_of_products f f l * (sum_of_products f g l * sum_of_products f g l / sum_of_products f f l))%R
      by (field; exact NZ).
    apply Rmult_le_compat_l; lra.
Qed.

End CauchySchwarz.

Lemma ssq_fst (ps : list (R * R)) :
  ssq (map fst ps) =
    Rsum (map (fun p => ((fst p - mean (map fst ps)) * (fst p - mean (map fst ps)))%R) ps).
Proof. unfold ssq. now rewrite map_map. Qed.

Lemma ssq_snd (ps : list (R * R)) :
  ssq (map snd ps) =
    Rsum (map (fun p => ((snd p - mean (map snd ps)) * (snd p - mean (map snd ps)))%R) ps).
Proof. unfold ssq. now rewrite map_map. Qed.

Lemma comoment_bound (ps : list (R * R)) :
  (comoment ps * comoment ps <= ssq (map fst ps) * ssq (map snd ps))%R.
Proof.
  rewrite ssq_fst, ssq_snd. unfold comoment.
  exact (cauchy_schwarz (R * R)
           (fun p => (fst p - mean (map fst ps))%R)
           (fun p => (snd p - mean (map snd ps))%R) ps).
Qed.

Lemma pearson_range (xs ys : list float64) :
  pearson xs ys = NaN \/ in_unit (pearson xs ys).
Proof.
  unfold pearson. destruct (length (finite_pairs xs ys) <? 1); [now left |].
  set (ps := finite_pairs xs ys).
  destruct (Rzero (R_sqrt.sqrt (ssq (map fst ps) * ssq (map snd ps)))) eqn:E;
    [now left | right].
  cbn [in_unit].
  pose proof (comoment_bound ps) as Hcs.
  pose proof (ssq_nonneg (map fst ps)) as Hx.
  pose proof (ssq_nonneg (map snd ps)) as Hy.
  assert (Hxy : (0 <= ssq (map fst ps) * ssq (map snd ps))%R)
    by now apply Rmult_le_pos.
  pose proof (sqrt_sqrt _ Hxy) as Hs.
  pose proof (sqrt_pos (ssq (map fst ps) * ssq (map snd ps))) as Hp.
  set (d := R_sqrt.sqrt (ssq (map fst ps) * ssq (map snd ps))) in *.
  assert (Hd : (0 < d)%R).
  { destruct Hp as [Hp | Hp]; [exact Hp |].
    assert (Rzero d = true) by (apply Rzero_true_iff; now symmetry). congruence. }
  rewrite <- Hs in Hcs.
  assert (Hb : (- d <= comoment ps <= d)%R) by nra.
  pose proof (Rinv_0_lt_compat d Hd) as Hi.
  assert (Hdi : (d * / d = 1)%R) by (apply Rinv_r; lra).
  unfold Rdiv. split; nra.
Qed.

Lemma finite_pairs_swap (xs ys : list float64) :
  finite_pairs ys xs = map (fun p => (snd p, fst p)) (finite_pairs xs ys).
Proof.
  unfold finite_pairs. revert ys.
  induction xs as [| x xs IH]; intros [| y ys]; cbn [combine filter map];
    try reflexivity.
  cbn [fst snd]. specialize (IH ys).
  destruct (is_finite x), (is_finite y); cbn [andb map fst snd];
    now rewrite IH.
Qed.

Lemma comoment_swap (ps : list (R * R)) :
  comoment (map (fun p => (snd p, fst p)) ps) = comoment ps.
Proof.
  unfold comoment.
  assert (Hf : map fst (map (fun p : R * R => (snd p, fst p)) ps) = map snd ps)
    by (rewrite map_map; reflexivity).
  assert (Hs : map snd (map (fun p : R * R => (snd p, fst p)) ps) = map fst ps)
    by (rewrite map_map; reflexivity).
  rewrite Hf, Hs, map_map. cbn [fst snd].
  f_equal. apply map_ext. intros p. ring.
Qed.

Lemma pearson_sym (xs ys : list float64) : pearson xs ys = pearson ys xs.
Proof.
  unfold pearson. rewrite (finite_pairs_swap xs ys).
  set (ps := finite_pairs xs ys).
  assert (Hf : map fst (map (fun p : R * R => (snd p, fst p)) ps) = map snd ps)
    by (rewrite map_map; reflexivity).
  assert (Hs : map snd (map (fun p : R * R => (snd p, fst p)) ps) = map fst ps)
    by (rewrite map_map; reflexivity).
  rewrite length_map, comoment_swap, Hf, Hs.
  now rewrite (Rmult_comm (ssq (map snd ps))).
Qed.

Lemma corr_entry (df : DataFrame) (i j : nat) :
  i < length (columns df) -> j < length (columns df) ->
  entry (corr df) i j = pearson (column i (rows df)) (column j (rows df)).
Proof.
  intros Hi Hj. unfold entry, corr.
  set (k := length (columns df)) in *.
  set (line := fun i => map (fun j => pearson (column i (rows df)) (column j (rows df)))
                            (seq 0 k)).
  rewrite nth_indep with (d' := line 0) by (now rewrite length_map, length_seq).
  rewrite (map_nth line), seq_nth by assumption. cbn [Nat.add]. unfold line.
  rewrite nth_indep
    with (d' := pearson (column i (rows df)) (column 0 (rows df)))
    by (now rewrite length_map, length_seq).
  rewrite (map_nth (fun j => pearson (column i (rows df)) (column j (rows df)))).
  now rewrite seq_nth by assumption.
Qed.

(** *** What a finite variance says about the series *)

Lemma add_fin_inv (x y : float64) (r : R) :
  (x + y)%fl = Fin r -> is_finite x = true /\ is_finite y = true.
Proof.
  destruct x as [| a | a], y as [| b | b]; cbn; try discriminate; auto.
  destruct (Bool.eqb a b); discriminate.
Qed.

Lemma fold_add_fin_inv (xs : list float64) :
  forall (acc : float64) (r : R),
    fold_left add xs acc = Fin r ->
    is_finite acc = true /\ Forall (fun x => is_finite x = true) xs.
Proof.
  induction xs as [| x xs IH]; intros acc r H; cbn [fold_left] in H.
  - subst acc. auto.
  - apply IH in H as [Ha Hxs].
    destruct (add acc x) as [| |s] eqn:E; try discriminate.
    apply add_fin_inv in E as [H1 H2]. auto.
Qed.

Lemma notna_idempotent (xs : list float64) : notna (notna xs) = notna xs.
Proof.
  unfold notna. induction xs as [| x xs IH]; cbn [filter]; [reflexivity |].
  destruct (negb (is_nan x)) eqn:E; [| exact IH].
  cbn [filter]. now rewrite E, IH.
Qed.

Lemma var_notna (xs : list float64) : var xs = var (notna xs).
Proof. unfold var. now rewrite notna_idempotent. Qed.

Lemma finite_to_R (xs : list float64) :
  Forall (fun x => is_finite x = true) xs -> xs = map Fin (map to_R xs).
Proof.
  induction 1 as [| x xs Hx _ IH]; [reflexivity |].
  cbn [map]. rewrite <- IH. destruct x; try discriminate. reflexivity.
Qed.

Lemma var_fin_inv (xs : list float64) (v : R) :
  var xs = Fin v ->
  2 <= length (notna xs) /\ Forall (fun x => is_finite x = true) (notna xs).
Proof.
  unfold var. destruct (Nat.leb_spec (length (notna xs)) 1) as [Hle | Hgt];
    [discriminate |].
  intros H. split; [lia |].
  set (avg := (fsum (notna xs) / Fin (INR (length (notna xs))))%fl) in *.
  destruct (fsum (map (fun v0 => ((avg - v0) * (avg - v0))%fl) (notna xs)))
    as [| |s] eqn:E; cbn [div] in H; try discriminate.
  apply fold_add_fin_inv in E as [_ E].
  rewrite Forall_map in E. eapply Forall_impl; [| exact E].
  intros x Hx. cbn beta in Hx.
  destruct (avg - x)%fl as [| |d] eqn:Ed; try discriminate.
  apply add_fin_inv in Ed as [_ Ed]. now destruct x.
Qed.

Lemma nonzero_variance_inv (xs : list float64) :
  nonzero_variance xs ->
  exists rs : list R,
    notna xs = map Fin rs /\ 2 <= length rs /\ ssq rs <> 0%R.
Proof.
  intros [v [Hv Hnz]]. pose proof (var_fin_inv xs v Hv) as [Hn Hf].
  exists (map to_R (notna xs)). split; [now apply finite_to_R |].
  split; [now rewrite length_map |].
  rewrite var_notna, (finite_to_R _ Hf), var_fin in Hv
    by (now rewrite length_map).
  injection Hv as Hv. intros Z. apply Hnz. rewrite <- Hv, Z. unfold Rdiv. ring.
Qed.

Lemma finite_pairs_diag (xs : list float64) :
  forall rs : list R,
    notna xs = map Fin rs -> finite_pairs xs xs = map (fun r => (r, r)) rs.
Proof.
  unfold finite_pairs, notna.
  induction xs as [| x xs IH]; intros rs H; cbn [filter combine map] in *.
  - destruct rs; [reflexivity | discriminate].
  - destruct x as [| s | a]; cbn [is_nan is_finite negb andb fst snd] in *.
    + now apply IH.
    + destruct rs; discriminate.
    + destruct rs as [| r rs]; [discriminate |]. cbn [map] in *.
      injection H as Ha H. subst a. cbn [to_R fst snd]. f_equal. now apply IH.
Qed.

Lemma finite_pairs_clean (rx : list R) :
  forall ry : list R,
    finite_pairs (map Fin rx) (map Fin ry) = combine rx ry.
Proof.
  unfold finite_pairs.
  induction rx as [| x rx IH]; intros [| y ry]; cbn [map combine filter];
    try reflexivity.
  cbn [fst snd is_finite andb map to_R]. f_equal. apply IH.
Qed.

Lemma map_fst_combine_eq {A B : Type} (xs : list A) :
  forall ys : list B, length xs = length ys -> map fst (combine xs ys) = xs.
Proof.
  induction xs as [| x xs IH]; intros [| y ys] H; cbn in *; try easy.
  f_equal. apply IH. lia.
Qed.

Lemma map_snd_combine_eq {A B : Type} (xs : list A) :
  forall ys : list B, length xs = length ys -> map snd (combine xs ys) = ys.
Proof.
  induction xs as [| x xs IH]; intros [| y ys] H; cbn in *; try easy.
  f_equal. apply IH. lia.
Qed.

Lemma notna_clean (xs : list float64) : existsb is_nan xs = false -> notna xs = xs.
Proof.
  unfold notna. induction xs as [| x xs IH]; cbn [existsb filter]; [reflexivity |].
  intros H. apply orb_false_iff in H as [Hx Hxs]. rewrite Hx. cbn [negb].
  now rewrite IH.
Qed.

Lemma sqrt_nonzero (a b : R) :
  (0 <= a)%R -> (0 <= b)%R -> a <> 0%R -> b <> 0%R ->
  Rzero (R_sqrt.sqrt (a * b)) = false.
Proof.
  intros Ha Hb Na Nb. apply Rzero_nz. intros Z.
  apply sqrt_eq_0 in Z; [| now apply Rmult_le_pos].
  apply Rmult_integral in Z. tauto.
Qed.

Lemma pearson_diag (xs : list float64) :
  nonzero_variance xs -> pearson xs xs = Fin 1.
Proof.
  intros Hv. apply nonzero_variance_inv in Hv as (rs & Hrs & Hn & Hs).
  unfold pearson. rewrite (finite_pairs_diag xs rs Hrs).
  rewrite length_map.
  destruct (Nat.ltb_spec (length rs) 1) as [Hlt | Hge]; [lia |].
  assert (Hf : map fst (map (fun r : R => (r, r)) rs) = rs)
    by (rewrite map_map; apply map_id).
  assert (Hd : map snd (map (fun r : R => (r, r)) rs) = rs)
    by (rewrite map_map; apply map_id).
  assert (Hc : comoment (map (fun r : R => (r, r)) rs) = ssq rs).
  { unfold comoment, ssq. rewrite Hf, Hd, map_map. reflexivity. }
  pose proof (ssq_nonneg rs) as Hp.
  rewrite Hf, Hd, Hc, sqrt_nonzero by assumption.
  rewrite sqrt_square by assumption. f_equal. now field.
Qed.

Lemma pearson_defined (xs ys : list float64) :
  length xs = length ys ->
  existsb is_nan xs = false -> existsb is_nan ys = false ->
  nonzero_variance xs -> nonzero_variance ys ->
  exists r : R, pearson xs ys = Fin r.
Proof.
  intros Hl Hx Hy Vx Vy.
  apply nonzero_variance_inv in Vx as (rx & Hrx & Hnx & Hsx).
  apply nonzero_variance_inv in Vy as (ry & Hry & Hny & Hsy).
  rewrite notna_clean in Hrx, Hry by assumption. subst xs ys.
  rewrite !length_map in Hl.
  unfold pearson. rewrite finite_pairs_clean, length_combine.
  destruct (Nat.ltb_spec (Nat.min (length rx) (length ry)) 1) as [Hlt | Hge]; [lia |].
  rewrite map_fst_combine_eq, map_snd_combine_eq by assumption.
  rewrite sqrt_nonzero by (auto using ssq_nonneg).
  eexists. reflexivity.
Qed.

Lemma column_length (j : nat) (rs : list row) : length (column j rs) = length rs.
Proof. unfold column. apply length_map. Qed.


Lemma pair_variance (j : nat) :
  j < 2 -> var (column j (rows pair_returns)) = Fin 1.
Proof.
  intros Hj. destruct j as [| [| j]]; [| | lia]; cbn [pair_returns rows column map nth cells].
  - change [Fin 0; Fin 1; Fin 2] with (map Fin [0; 1; 2]%R).
    rewrite var_fin by (cbn; lia). f_equal.
    unfold ssq, mean, Rsum. cbn [length map fold_right INR]. field.
  - change [Fin 1; Fin 3; Fin 2] with (map Fin [1; 3; 2]%R).
    rewrite var_fin by (cbn; lia). f_equal.
    unfold ssq, mean, Rsum. cbn [length map fold_right INR]. field.
Qed.

(** The two tickers of [pair_returns] are half correlated. *)
Lemma pair_correlation : entry (corr pair_returns) 0 1 = Fin (1 / 2).
Proof.
  rewrite corr_entry by (cbn; lia).
  cbn [pair_returns rows column map nth cells]. unfold pearson.
  change (finite_pairs [Fin 0; Fin 1; Fin 2] [Fin 1; Fin 3; Fin 2])
    with [(0, 1); (1, 3); (2, 2)]%R.
  cbn [length Nat.ltb Nat.leb map fst snd].
  replace (ssq [0; 1; 2])%R with 2%R
    by (unfold ssq, mean, Rsum; cbn [length map fold_right INR]; field).
  replace (ssq [1; 3; 2])%R with 2%R
    by (unfold ssq, mean, Rsum; cbn [length map fold_right INR]; field).
  replace (comoment [(0, 1); (1, 3); (2, 2)])%R with 1%R
    by (unfold comoment, mean, Rsum; cbn [length map fold_right INR fst snd]; field).
  rewrite sqrt_square by lra. rewrite Rzero_nz by lra. reflexivity.
Qed.


Lemma steady_daily_returns (fm : fill_method) :
  daily_returns fm steady_prices =
    Frame ["AAPL"%string] [Row 1 [Fin (2 / 1 - 1)]; Row 2 [Fin (4 / 2 - 1)]].
Proof.
  unfold daily_returns, dropna. f_equal.
  change (filter complete (rows (pct_change fm steady_prices)))
    with (rows (daily_returns fm steady_prices)).
  rewrite daily_returns_quoted; [| reflexivity | quotes | quotes].
  cbn. rewrite !change_fin by lra. reflexivity.
Qed.


(** * Further properties *)

(** ** The input normaliser, beyond blank input *)

Lemma split_comma_length (s : string) :
  length (split_comma s) = S (count_char ","%char s).
Proof.
  induction s as [| c s IH]; [reflexivity |].
  cbn [split_comma count_char]. destruct (Ascii.eqb c ","); cbn [length Nat.add].
  - now rewrite IH.
  - destruct (split_comma s); cbn [length] in *; lia.
Qed.

(** X1: the normaliser returns one ticker more than the input has commas:
    nothing is merged, dropped or deduplicated. *)
Theorem ticker_list_length (tickers : string) :
  length (ticker_list tickers) = S (count_char ","%char tickers).
Proof. unfold ticker_list. rewrite length_map. apply split_comma_length. Qed.

Lemma split_comma_app (a b : string) :
  split_comma (a ++ String ","%char b) = split_comma a ++ split_comma b.
Proof.
  induction a as [| c a IH]; [reflexivity |].
  cbn [String.append split_comma]. rewrite IH.
  destruct (Ascii.eqb c ","); [reflexivity |].
  pose proof (split_comma_not_nil a) as Hn.
  destruct (split_comma a); [easy | reflexivity].
Qed.

(** X2: the normaliser works piece by piece: the tickers of [a,b] are the
    tickers of [a] followed by the tickers of [b]. *)
Theorem ticker_list_app (a b : string) :
  ticker_list (a ++ String ","%char b) = ticker_list a ++ ticker_list b.
Proof. unfold ticker_list. now rewrite split_comma_app, map_app. Qed.

Lemma upper_char_space (c : ascii) : is_space (upper_char c) = is_space c.
Proof. destruct c as [[] [] [] [] [] [] [] []]; reflexivity. Qed.

Lemma white_space_is_space (c : ascii) : white_space c = is_space c.
Proof. destruct c as [[] [] [] [] [] [] [] []]; reflexivity. Qed.

Lemma upper_char_comma (c : ascii) :
  Ascii.eqb (upper_char c) ","%char = Ascii.eqb c ","%char.
Proof. destruct c as [[] [] [] [] [] [] [] []]; reflexivity. Qed.

Lemma upper_char_not_lower (c : ascii) : is_lower (upper_char c) = false.
Proof. destruct c as [[] [] [] [] [] [] [] []]; reflexivity. Qed.

Lemma upper_char_ascii (c : ascii) : is_ascii (upper_char c) = is_ascii c.
Proof. destruct c as [[] [] [] [] [] [] [] []]; reflexivity. Qed.

Lemma upper_char_fixed (c : ascii) : is_lower c = false -> upper_char c = c.
Proof. unfold upper_char, is_lower. now intros ->. Qed.

Lemma upper_count_comma (s : string) :
  count_char ","%char (upper s) = count_char ","%char s.
Proof.
  induction s as [| c s IH]; [reflexivity |].
  cbn [upper count_char]. now rewrite upper_char_comma, IH.
Qed.

Lemma upper_ascii_only (s : string) : ascii_only (upper s) = ascii_only s.
Proof.
  unfold ascii_only. induction s as [| c s IH]; [reflexivity |].
  cbn [upper all_chars]. now rewrite upper_char_ascii, IH.
Qed.

Lemma upper_no_lower (s : string) :
  all_chars (fun c => negb (is_lower c)) (upper s) = true.
Proof.
  induction s as [| c s IH]; [reflexivity |].
  cbn [upper all_chars]. now rewrite upper_char_not_lower, IH.
Qed.

Lemma no_lower_upper (s : string) :
  all_chars (fun c => negb (is_lower c)) s = true -> upper s = s.
Proof.
  induction s as [| c s IH]; [reflexivity |].
  cbn [upper all_chars]. intros H. apply andb_true_iff in H as [Hc Hs].
  apply negb_true_iff in Hc. now rewrite upper_char_fixed, IH.
Qed.

Lemma lstrip_clean_head (s : string) : clean_head (lstrip s).
Proof.
  induction s as [| c s IH]; [exact I |].
  cbn [lstrip]. destruct (is_space c) eqn:E; [exact IH |].
  cbn [clean_head]. now rewrite white_space_is_space.
Qed.

Lemma clean_head_lstrip (s : string) : clean_head s -> lstrip s = s.
Proof.
  destruct s as [| c s]; [reflexivity |]. cbn [clean_head lstrip].
  rewrite white_space_is_space. now intros ->.
Qed.

Lemma rstrip_clean_head (s : string) : clean_head s -> clean_head (rstrip s).
Proof.
  destruct s as [| c s]; [exact (fun H => H) |]. cbn [clean_head rstrip].
  rewrite white_space_is_space. intros Hc.
  destruct (rstrip s); [rewrite Hc |]; cbn [clean_head];
    now rewrite white_space_is_space.
Qed.

Lemma upper_clean_head (s : string) : clean_head s -> clean_head (upper s).
Proof.
  destruct s as [| c s]; [exact (fun H => H) |]. cbn [upper clean_head].
  now rewrite !white_space_is_space, upper_char_space.
Qed.

Lemma rstrip_cons (c : ascii) (s : string) :
  rstrip (String c s) =
    match rstrip s with
    | EmptyString => if is_space c then EmptyString else String c EmptyString
    | rest => String c rest
    end.
Proof. reflexivity. Qed.

Lemma clean_last_cons (c d : ascii) (s : string) :
  clean_last (String c (String d s)) = clean_last (String d s).
Proof. reflexivity. Qed.

Lemma rstrip_clean_last (s : string) : clean_last (rstrip s).
Proof.
  induction s as [| c s IH]; [exact I |].
  rewrite rstrip_cons. destruct (rstrip s) as [| d rest].
  - destruct (is_space c) eqn:Ec; [exact I |].
    cbn [clean_last]. now rewrite white_space_is_space.
  - rewrite clean_last_cons. exact IH.
Qed.

Lemma clean_last_rstrip (s : string) : clean_last s -> rstrip s = s.
Proof.
  induction s as [| c s IH]; [reflexivity |].
  rewrite rstrip_cons. destruct s as [| d s].
  - cbn [clean_last rstrip]. rewrite white_space_is_space. now intros ->.
  - rewrite clean_last_cons. intros H. now rewrite (IH H).
Qed.

Lemma upper_clean_last (s : string) : clean_last s -> clean_last (upper s).
Proof.
  induction s as [| c s IH]; [exact (fun H => H) |].
  destruct s as [| d s].
  - cbn [upper clean_last]. now rewrite !white_space_is_space, upper_char_space.
  - change (upper (String c (String d s)))
      with (String (upper_char c) (upper (String d s))).
    change (upper (String d s)) with (String (upper_char d) (upper s)) in *.
    rewrite !clean_last_cons. exact IH.
Qed.

Lemma lstrip_all_chars (p : ascii -> bool) (s : string) :
  all_chars p s = true -> all_chars p (lstrip s) = true.
Proof.
  induction s as [| c s IH]; [reflexivity |].
  cbn [lstrip]. destruct (is_space c); [| exact (fun H => H)].
  cbn [all_chars]. intros H. apply andb_true_iff in H as [_ Hs]. now apply IH.
Qed.

Lemma rstrip_all_chars (p : ascii -> bool) (s : string) :
  all_chars p s = true -> all_chars p (rstrip s) = true.
Proof.
  induction s as [| c s IH]; [reflexivity |].
  rewrite rstrip_cons. cbn [all_chars]. intros H.
  apply andb_true_iff in H as [Hc Hs]. specialize (IH Hs).
  destruct (rstrip s).
  - destruct (is_space c); [reflexivity |]. cbn [all_chars]. now rewrite Hc.
  - cbn [all_chars] in *. now rewrite Hc.
Qed.

Lemma split_comma_all_chars (p : ascii -> bool) (s : string) :
  all_chars p s = true ->
  Forall (fun piece => all_chars p piece = true) (split_comma s).
Proof.
  induction s as [| c s IH]; [repeat constructor |].
  cbn [all_chars split_comma]. intros H.
  apply andb_true_iff in H as [Hc Hs]. specialize (IH Hs).
  destruct (Ascii.eqb c ","); [constructor; [reflexivity | exact IH] |].
  destruct (split_comma s) as [| piece pieces].
  - repeat constructor. cbn [all_chars]. now rewrite Hc.
  - inversion IH; subst. constructor; [| assumption].
    cbn [all_chars]. now rewrite Hc.
Qed.

Lemma lstrip_count_comma (s : string) :
  count_char ","%char s = 0 -> count_char ","%char (lstrip s) = 0.
Proof.
  induction s as [| c s IH]; [reflexivity |].
  cbn [lstrip]. destruct (is_space c); [| exact (fun H => H)].
  cbn [count_char]. intros H. apply IH. lia.
Qed.

Lemma rstrip_count_comma (s : string) :
  count_char ","%char s = 0 -> count_char ","%char (rstrip s) = 0.
Proof.
  induction s as [| c s IH]; [reflexivity |].
  cbn [count_char rstrip]. intros H.
  assert (Hc : (if Ascii.eqb c "," then 1 else 0) = 0) by lia.
  assert (Hs : count_char "," s = 0) by lia. specialize (IH Hs).
  destruct (rstrip s).
  - destruct (is_space c); [reflexivity |]. cbn [count_char]. lia.
  - cbn [count_char] in *. lia.
Qed.

Lemma split_comma_no_comma (s : string) :
  Forall (fun p => count_char ","%char p = 0) (split_comma s).
Proof.
  induction s as [| c s IH]; [repeat constructor |].
  cbn [split_comma]. destruct (Ascii.eqb c ",") eqn:E.
  - constructor; [reflexivity | exact IH].
  - destruct (split_comma s) as [| p ps]; [repeat constructor; cbn; now rewrite E |].
    inversion IH; subst. constructor; [| assumption].
    cbn [count_char]. rewrite E. assumption.
Qed.

(** X3: on ASCII input every ticker the normaliser returns is ASCII and
    tidy: no white space at either end, no lower-case letter, no comma. *)
Theorem ticker_list_normalised (tickers : string) :
  ascii_only tickers = true ->
  Forall (fun t => ascii_only t = true /\ tidy t) (ticker_list tickers).
Proof.
  intros Ha. unfold ticker_list. apply Forall_map.
  pose proof (split_comma_all_chars is_ascii tickers Ha) as Hp.
  pose proof (split_comma_no_comma tickers) as Hc.
  rewrite Forall_forall in *. intros p Hin. unfold tidy, strip. split; [| repeat split].
  - rewrite upper_ascii_only. now apply rstrip_all_chars, lstrip_all_chars, Hp.
  - apply upper_clean_head, rstrip_clean_head, lstrip_clean_head.
  - apply upper_clean_last, rstrip_clean_last.
  - apply upper_no_lower.
  - rewrite upper_count_comma. now apply rstrip_count_comma, lstrip_count_comma, Hc.
Qed.

Lemma ticker_list_normalised_witness :
  Forall (fun t => ascii_only t = true /\ tidy t)
         (ticker_list " aapl,Tsla ,GOOGL"%string).
Proof. apply (ticker_list_normalised " aapl,Tsla ,GOOGL"%string). reflexivity. Defined.

Lemma split_comma_plain (t : string) :
  count_char ","%char t = 0 -> split_comma t = [t].
Proof.
  induction t as [| c t IH]; [reflexivity |].
  cbn [count_char split_comma]. destruct (Ascii.eqb c ","); [discriminate |].
  cbn [Nat.add]. intros H. now rewrite IH.
Qed.

Lemma ticker_list_plain (t : string) : tidy t -> ticker_list t = [t].
Proof.
  intros (Hh & Hl & Hu & Hc). unfold ticker_list, strip.
  rewrite split_comma_plain by assumption. cbn [map].
  now rewrite clean_head_lstrip, clean_last_rstrip, no_lower_upper.
Qed.

(** X4: joining tidy ASCII tickers with commas and normalising the result
    gives the tickers back, in order and with their duplicates. *)
Theorem ticker_list_join (ts : list string) :
  ts <> [] ->
  Forall (fun t => ascii_only t = true /\ tidy t) ts ->
  ticker_list (join ts) = ts.
Proof.
  induction ts as [| t ts IH]; [easy |]. intros _ Hn.
  inversion Hn as [| ? ? [_ Ht] Hts]; subst.
  destruct ts as [| t' ts].
  - cbn [join]. now apply ticker_list_plain.
  - change (join (t :: t' :: ts)) with (t ++ String ","%char (join (t' :: ts)))%string.
    unfold ticker_list at 1. rewrite split_comma_app, map_app.
    change (map (fun x => upper (strip x)) (split_comma t)) with (ticker_list t).
    change (map (fun x => upper (strip x)) (split_comma (join (t' :: ts))))
      with (ticker_list (join (t' :: ts))).
    rewrite ticker_list_plain by assumption.
    rewrite IH by (easy || assumption). reflexivity.
Qed.

Lemma ticker_list_join_witness :
  ticker_list (join ["AAPL"; "TSLA"; "AAPL"]%string) = ["AAPL"; "TSLA"; "AAPL"]%string.
Proof.
  apply (ticker_list_join ["AAPL"; "TSLA"; "AAPL"]%string); [discriminate |].
  repeat constructor.
Defined.

(** ** The returns table, beyond its row count *)

Lemma daily_returns_shorter (fm : fill_method) (df : DataFrame) :
  empty df = false -> well_formed df ->
  length (rows (daily_returns fm df)) < length (rows df).
Proof.
  intros He Hw. apply empty_false in He as [Hc Hr]. red in Hw.
  unfold daily_returns, dropna, pct_change. cbn [rows].
  destruct (rows df) as [| r rs]; [easy |].
  destruct (filled_rows_shape fm r rs) as (rest & -> & Hl).
  cbn [pct_rows filter]. rewrite first_row_dropped.
  - pose proof (filter_length_le complete (pct_from (cells r) rest)) as Hf.
    rewrite pct_from_length in Hf. cbn [length]. lia.
  - apply Forall_inv in Hw. destruct (cells r); [| easy].
    destruct (columns df); easy.
Qed.

(** X5: whatever the prices, the returns table keeps the column labels,
    holds no missing cell, is rectangular when the price table is, and has
    strictly fewer rows than a non-empty price table. *)
Theorem returns_table_invariants (fm : fill_method) (stock_data : DataFrame) :
  let dr := daily_returns fm stock_data in
  columns dr = columns stock_data /\
  no_missing (rows dr) /\
  (well_formed stock_data -> well_formed dr) /\
  (empty stock_data = false -> well_formed stock_data ->
   length (rows dr) < length (rows stock_data)).
Proof.
  intros dr. split; [reflexivity |]. split; [apply daily_returns_complete |].
  split; [apply daily_returns_well_formed |].
  apply daily_returns_shorter.
Qed.

Lemma returns_table_invariants_witness :
  well_formed (daily_returns pad partial_prices) /\
  length (rows (daily_returns pad partial_prices)) < length (rows partial_prices).
Proof.
  destruct (returns_table_invariants pad partial_prices) as (_ & _ & Hw & Hl).
  split; [apply Hw; quotes | apply Hl; [reflexivity | quotes]].
Defined.

Lemma pct_from_nth (rs : list row) :
  forall (prev : list float64) (k : nat) (d : row),
    k < length rs ->
    nth k (pct_from prev rs) d =
      Row (day (nth k rs d))
          (zip_with change (cells (nth k rs d)) (nth k (prev :: map cells rs) [])).
Proof.
  induction rs as [| r rs IH]; intros prev k d Hk; cbn [length] in Hk; [lia |].
  destruct k as [| k]; [reflexivity |].
  cbn [pct_from nth map]. rewrite IH by lia. reflexivity.
Qed.

Lemma quoted_nth (rs : list row) (k j : nat) (w : nat) :
  all_quoted rs -> Forall (fun r => length (cells r) = w) rs ->
  k < length rs -> j < w ->
  quoted (nth j (cells (nth k rs (Row 0 []))) NaN).
Proof.
  intros Hq Hw Hk Hj. unfold all_quoted in Hq. rewrite Forall_forall in Hq, Hw.
  assert (Hin : In (nth k rs (Row 0 [])) rs) by now apply nth_In.
  specialize (Hq _ Hin). specialize (Hw _ Hin). rewrite Forall_forall in Hq.
  apply Hq, nth_In. lia.
Qed.

(** X6: on a non-empty rectangular table of finite non-zero prices, row [k]
    of the returns table carries the date of price row [k + 1], and its cell
    for ticker [j] is that day's price over the previous day's price, minus
    one, which is not a missing value. *)
Theorem return_value (fm : fill_method) (stock_data : DataFrame) (k j : nat) :
  empty stock_data = false ->
  well_formed stock_data ->
  all_quoted (rows stock_data) ->
  S k < length (rows stock_data) ->
  j < length (columns stock_data) ->
  let prev := nth j (cells (nth k (rows stock_data) (Row 0 []))) NaN in
  let cur := nth j (cells (nth (S k) (rows stock_data) (Row 0 []))) NaN in
  let r := nth k (rows (daily_returns fm stock_data)) (Row 0 []) in
  day r = day (nth (S k) (rows stock_data) (Row 0 [])) /\
  nth j (cells r) NaN = (cur / prev - one)%fl /\
  is_nan (nth j (cells r) NaN) = false.
Proof.
  intros He Hw Hq Hk Hj prev cur r.
  assert (Hp : quoted prev) by (eapply quoted_nth; eauto; lia).
  assert (Hc : quoted cur) by (eapply quoted_nth; eauto).
  unfold r. rewrite daily_returns_quoted by assumption.
  red in Hw. unfold prev, cur in *. clear prev cur r.
  destruct (rows stock_data) as [| r0 rest]; [cbn in Hk; lia |].
  cbn [length] in Hk. cbn [hd List.tl]. rewrite pct_from_nth by lia.
  cbn [day cells]. split; [reflexivity |].
  assert (Hprev : nth k (cells r0 :: map cells rest) [] =
                  cells (nth k (r0 :: rest) (Row 0 []))).
  { change (cells r0 :: map cells rest) with (map cells (r0 :: rest)).
    exact (map_nth cells (r0 :: rest) (Row 0 []) k). }
  rewrite Hprev.
  change (nth (S k) (r0 :: rest) (Row 0 [])) with (nth k rest (Row 0 [])) in *.
  rewrite Forall_forall in Hw.
  assert (H1 : length (cells (nth k rest (Row 0 []))) = length (columns stock_data))
    by (apply Hw; right; apply nth_In; lia).
  assert (H2 : length (cells (nth k (r0 :: rest) (Row 0 []))) = length (columns stock_data))
    by (apply Hw, nth_In; cbn [length]; lia).
  rewrite (zip_with_nth change NaN NaN NaN) by lia.
  split; [reflexivity |].
  destruct (nth j (cells (nth k rest (Row 0 []))) NaN) as [| |c]; try easy.
  destruct (nth j (cells (nth k (r0 :: rest) (Row 0 []))) NaN) as [| |p]; try easy.
  now rewrite change_fin.
Qed.

Lemma return_value_witness :
  nth 0 (cells (nth 1 (rows (daily_returns pad aapl_prices)) (Row 0 []))) NaN =
    (Fin 99 / Fin 101 - one)%fl /\
  is_nan (nth 0 (cells (nth 1 (rows (daily_returns pad aapl_prices)) (Row 0 []))) NaN)
    = false.
Proof.
  apply (return_value pad aapl_prices 1 0); [reflexivity | quotes | quotes | | ];
    cbn; lia.
Defined.

Lemma ffill_cells_no_missing (prev cur : list float64) :
  length prev = length cur -> existsb is_nan cur = false ->
  ffill_cells prev cur = cur.
Proof.
  unfold ffill_cells. revert cur.
  induction prev as [| p prev IH]; intros [| c cur]; cbn [zip_with existsb length];
    try easy.
  intros Hl Hn. apply orb_false_iff in Hn as [Hc Hn].
  rewrite Hc. f_equal. apply IH; auto.
Qed.

Lemma ffill_from_no_missing (w : nat) (rs : list row) :
  forall prev,
    length prev = w ->
    Forall (fun r => length (cells r) = w) rs ->
    no_missing rs ->
    ffill_from prev rs = rs.
Proof.
  induction rs as [| [d c] rs IH]; intros prev Hp Hw Hn; [reflexivity |].
  inversion Hw; subst. inversion Hn; subst. cbn [cells] in *.
  cbn [ffill_from cells day].
  rewrite ffill_cells_no_missing by (auto; congruence).
  f_equal. apply IH; auto.
Qed.

(** X7: on a rectangular price table without a missing cell the two
    [pct_change] defaults give the same returns table: the result does not
    depend on the installed pandas. *)
Theorem returns_fill_independent (stock_data : DataFrame) :
  well_formed stock_data ->
  no_missing (rows stock_data) ->
  daily_returns pad stock_data = daily_returns no_fill stock_data.
Proof.
  intros Hw Hn. unfold daily_returns, pct_change. do 3 f_equal.
  red in Hw. destruct (rows stock_data) as [| r rs]; [reflexivity |].
  inversion Hw; subst. inversion Hn; subst. cbn [ffill]. f_equal.
  eapply ffill_from_no_missing; eauto.
Qed.

Lemma returns_fill_independent_witness :
  daily_returns pad zero_prices = daily_returns no_fill zero_prices.
Proof. apply (returns_fill_independent zero_prices); quotes. Defined.

(** ** Risk, beyond the annualisation factor *)

Lemma mul_positive_not_negative (s : float64) (a : R) :
  ltz s = false -> (0 < a)%R -> ltz (s * Fin a)%fl = false.
Proof.
  intros Hs Ha. destruct s as [| neg | r]; cbn [mul ltz] in *.
  - reflexivity.
  - subst neg. rewrite Rzero_nz, Rneg_ge by lra. reflexivity.
  - unfold Rneg in *. destruct (Rlt_dec r 0); [discriminate |].
    destruct (Rlt_dec (r * a) 0) as [Hlt | _]; [| reflexivity].
    exfalso. assert (0 <= r * a)%R by (apply Rmult_le_pos; lra). lra.
Qed.

Lemma frame_std_short (df : DataFrame) :
  length (rows df) <= 1 -> Forall (fun s => s = NaN) (frame_std df).
Proof.
  intros H. unfold frame_std. apply Forall_map, Forall_forall. intros j _.
  apply std_short. now rewrite column_length.
Qed.

(** X9: the risk vector has one value per ticker; no value is negative
    (the test [x < 0] fails on each, as it does on NaN); and with at most
    one row of returns every value is undefined. *)
Theorem annualized_risk_shape_and_sign (daily_returns : DataFrame) :
  length (annualized_risk daily_returns) = length (columns daily_returns) /\
  Forall (fun r => ltz r = false) (annualized_risk daily_returns) /\
  (length (rows daily_returns) <= 1 ->
   Forall (fun r => r = NaN) (annualized_risk daily_returns)).
Proof.
  unfold annualized_risk. split; [| split].
  - now rewrite length_map, frame_std_length.
  - apply Forall_map. unfold frame_std. apply Forall_map, Forall_forall.
    intros j _. apply mul_positive_not_negative; [| lra].
    apply mul_positive_not_negative; [apply sqrt_not_negative |].
    apply sqrt_lt_R0. lra.
  - intros H. apply Forall_map.
    eapply Forall_impl; [| apply frame_std_short; exact H].
    intros s ->. reflexivity.
Qed.

Lemma annualized_risk_shape_and_sign_witness :
  Forall (fun r => r = NaN) (annualized_risk (daily_returns pad one_quote)).
Proof.
  apply (annualized_risk_shape_and_sign (daily_returns pad one_quote)).
  rewrite (single_row_returns pad one_quote); [cbn; lia | reflexivity | reflexivity | quotes].
Defined.

(** ** Correlation, beyond range and symmetry *)

Lemma finite_pairs_length (xs ys : list float64) :
  length (finite_pairs xs ys) <= length xs.
Proof.
  unfold finite_pairs. rewrite length_map.
  etransitivity; [apply filter_length_le |].
  rewrite length_combine. lia.
Qed.

Lemma ssq_single (x : R) : ssq [x] = 0%R.
Proof. unfold ssq, mean, Rsum. cbn [length map fold_right INR]. field. Qed.

Lemma pearson_short (xs ys : list float64) :
  length xs <= 1 -> pearson xs ys = NaN.
Proof.
  intros H. pose proof (finite_pairs_length xs ys) as Hl.
  unfold pearson. destruct (finite_pairs xs ys) as [| p [| q ps]];
    cbn [length] in *; try lia; [reflexivity |].
  cbn [Nat.ltb Nat.leb map]. rewrite ssq_single, Rmult_0_l, sqrt_0, Rzero_0.
  reflexivity.
Qed.

(** X11: the correlation matrix is square, one line and one column per
    ticker; with at most one row of returns every entry, the diagonal
    included, is undefined. *)
Theorem corr_shape (daily_returns : DataFrame) :
  length (corr daily_returns) = length (columns daily_returns) /\
  Forall (fun line => length line = length (columns daily_returns))
         (corr daily_returns) /\
  (length (rows daily_returns) <= 1 ->
   Forall (Forall (fun e => e = NaN)) (corr daily_returns)).
Proof.
  unfold corr. split; [| split].
  - now rewrite length_map, length_seq.
  - apply Forall_map, Forall_forall. intros i _.
    now rewrite length_map, length_seq.
  - intros H. apply Forall_map, Forall_forall. intros i _.
    apply Forall_map, Forall_forall. intros j _.
    apply pearson_short. now rewrite column_length.
Qed.

Lemma corr_shape_witness :
  Forall (Forall (fun e => e = NaN)) (corr (daily_returns pad one_quote)).
Proof.
  apply (corr_shape (daily_returns pad one_quote)).
  rewrite (single_row_returns pad one_quote); [cbn; lia | reflexivity | reflexivity | quotes].
Defined.

(** ** The simulation, beyond shape and recurrence *)

Lemma simulation_table_labels (sn : nat -> R) (vol : Series) (lp : list float64)
  (n paths : nat) :
  map fst (simulation_table sn vol lp n paths) = seq 0 paths.
Proof. unfold simulation_table. rewrite map_map. apply map_id. Qed.

(** X14: on a non-empty rectangular price table with [K] tickers the
    simulation draws nothing on the page.  Up to pandas 2 it raises nothing,
    consumes exactly 50 x 252 x K variates and labels its columns 0 to 49 in
    order; under pandas 3 it stops on the KeyError of line 128 once the
    252 x K variates of the first path are consumed. *)
Theorem simulation_consumption (standard_normal : nat -> R) (fm : fill_method)
  (stock_data : DataFrame) (w : world) :
  empty stock_data = false ->
  well_formed stock_data ->
  let K := length (columns stock_data) in
  match fm with
  | pad =>
      exists sim,
        simulate standard_normal pad stock_data (daily_returns pad stock_data) w =
          (inr sim, World (cursor w + 50 * (252 * K)) (screen w)) /\
        map fst sim = seq 0 50
  | no_fill =>
      simulate standard_normal no_fill stock_data (daily_returns no_fill stock_data) w =
        (inl KeyError, World (cursor w + 252 * K) (screen w))
  end.
Proof.
  intros He Hw K. pose proof (empty_false stock_data He) as [_ Hr].
  pose proof (last_cells_length stock_data Hr Hw) as Hl. fold K in Hl.
  destruct fm.
  - eexists. split.
    + rewrite simulate_run by assumption. rewrite Hl. reflexivity.
    + apply simulation_table_labels.
  - rewrite simulate_label_lookup by exact Hr. now rewrite Hl.
Qed.

Lemma simulation_consumption_witness :
  (exists sim,
     simulate (fun n => INR n) pad sorted_prices (daily_returns pad sorted_prices)
       blank_page = (inr sim, World (0 + 50 * (252 * 2)) []) /\
     map fst sim = seq 0 50) /\
  simulate (fun n => INR n) no_fill sorted_prices (daily_returns no_fill sorted_prices)
    blank_page = (inl KeyError, World (0 + 252 * 2) []).
Proof.
  split.
  - apply (simulation_consumption (fun n => INR n) pad sorted_prices blank_page);
      [reflexivity | quotes].
  - apply (simulation_consumption (fun n => INR n) no_fill sorted_prices blank_page);
      [reflexivity | quotes].
Defined.

Lemma gauss_draw_ext (sn sn' : nat -> R) (vol : Series) (size n : nat) :
  (forall i, n <= i < n + size -> sn i = sn' i) ->
  gauss_draw sn vol size n = gauss_draw sn' vol size n.
Proof.
  intros H. unfold gauss_draw. f_equal. apply map_ext_in.
  intros i Hi. apply in_seq in Hi. rewrite H by lia. reflexivity.
Qed.

Lemma walk_ext (sn sn' : nat -> R) (vol : Series) (size steps : nat) :
  forall (n : nat) (price : list float64),
    (forall i, n <= i < n + steps * size -> sn i = sn' i) ->
    walk sn vol size steps n price = walk sn' vol size steps n price.
Proof.
  induction steps as [| m IH]; intros n price H; [reflexivity |].
  cbn [walk]. rewrite (gauss_draw_ext sn sn') by (intros i Hi; apply H; cbn; lia).
  f_equal. apply IH. intros i Hi. apply H. cbn. lia.
Qed.

Lemma simulation_table_nth (sn : nat -> R) (vol : Series) (lp : list float64)
  (n paths x : nat) :
  x < paths ->
  nth x (simulation_table sn vol lp n paths) (0, []) =
    (x, path_column sn vol lp (n + x * (num_days * length lp))).
Proof.
  intros Hx. unfold simulation_table.
  rewrite nth_indep
    with (d' := (fun x => (x, path_column sn vol lp (n + x * (num_days * length lp)))) 0)
    by (now rewrite length_map, length_seq).
  rewrite (map_nth (fun x => (x, path_column sn vol lp (n + x * (num_days * length lp))))).
  now rewrite seq_nth.
Qed.

(** X15: up to pandas 2 the paths use disjoint blocks of the random stream:
    path [x] depends only on the 252 x K variates that start at position
    [x * 252 * K] after the cursor, so two streams that agree there give
    the same column [x]. *)
Theorem path_reads_its_block (sn sn' : nat -> R)
  (stock_data : DataFrame) (w : world) (x : nat) :
  empty stock_data = false ->
  well_formed stock_data ->
  x < 50 ->
  let block := 252 * length (columns stock_data) in
  (forall i, cursor w + x * block <= i < cursor w + S x * block -> sn i = sn' i) ->
  exists sim sim' w1 w2,
    simulate sn pad stock_data (daily_returns pad stock_data) w = (inr sim, w1) /\
    simulate sn' pad stock_data (daily_returns pad stock_data) w = (inr sim', w2) /\
    nth x sim (0, []) = nth x sim' (0, []).
Proof.
  intros He Hw Hx block Hagree.
  pose proof (empty_false stock_data He) as [_ Hr].
  pose proof (last_cells_length stock_data Hr Hw) as Hl.
  do 4 eexists. split; [apply simulate_run; assumption |].
  split; [apply simulate_run; assumption |].
  rewrite !simulation_table_nth by exact Hx. f_equal.
  unfold path_column. f_equal. apply walk_ext.
  intros i Hi. apply Hagree. rewrite Hl in Hi. unfold block, num_days in *. lia.
Qed.

Lemma path_reads_its_block_witness :
  exists sim sim' w1 w2,
    simulate (fun n => INR n) pad aapl_prices (daily_returns pad aapl_prices) blank_page
      = (inr sim, w1) /\
    simulate (fun i => if i <? 252 then INR i else 1%R) pad aapl_prices
      (daily_returns pad aapl_prices) blank_page = (inr sim', w2) /\
    nth 0 sim (0, []) = nth 0 sim' (0, []).
Proof.
  apply (path_reads_its_block (fun n => INR n)
           (fun i => if i <? 252 then INR i else 1%R)
           aapl_prices blank_page 0); [reflexivity | quotes | lia |].
  intros i Hi. cbn in Hi.
  destruct (Nat.ltb_spec i 252); [reflexivity | lia].
Defined.

Lemma perturb_still (ps : list R) :
  forall (vol : Series) (zs : list R),
    Forall (fun s => s = Fin 0) vol ->
    length vol = length ps -> length zs = length ps ->
    perturb (map Fin ps)
            (zip_with (fun s z => (Fin 0 + s * z)%fl) vol (map Fin zs)) =
      map Fin ps.
Proof.
  unfold perturb.
  induction ps as [| p ps IH]; intros [| s vol] [| z zs] Hv Hlv Hlz;
    cbn [length] in *; try lia; [reflexivity |].
  inversion Hv; subst. cbn [map zip_with add mul one].
  f_equal; [f_equal; ring |]. apply IH; auto.
Qed.

Lemma walk_still (sn : nat -> R) (vol : Series) (ps : list R) (steps : nat) :
  Forall (fun s => s = Fin 0) vol ->
  length vol = length ps ->
  forall n,
    walk sn vol (length (map Fin ps)) steps n (map Fin ps) =
      repeat (map Fin ps) steps.
Proof.
  intros Hv Hl. induction steps as [| m IH]; intros n; [reflexivity |].
  cbn [walk repeat].
  assert (Hd : perturb (map Fin ps)
                 (gauss_draw sn vol (length (map Fin ps)) n) = map Fin ps).
  { unfold gauss_draw.
    rewrite <- (map_map (fun i => sn (n + i)) Fin).
    apply perturb_still; [assumption | assumption |].
    now rewrite length_map, length_seq, length_map. }
  rewrite Hd. f_equal. apply IH.
Qed.

(** X16: up to pandas 2, when every ticker has zero volatility and the last
    prices are finite, the walk does not move: every one of the 252 values of
    every path is the last price of the first column, whatever the
    variates. *)
Theorem flat_simulation (standard_normal : nat -> R)
  (stock_data : DataFrame) (w : world) :
  empty stock_data = false ->
  well_formed stock_data ->
  Forall (fun s => s = Fin 0) (frame_std (daily_returns pad stock_data)) ->
  Forall (fun p => is_finite p = true) (last_cells stock_data) ->
  exists sim w',
    simulate standard_normal pad stock_data (daily_returns pad stock_data) w
      = (inr sim, w') /\
    Forall (fun col => snd col = repeat (nth 0 (last_cells stock_data) NaN) 252) sim.
Proof.
  intros He Hw Hv Hf.
  pose proof (empty_false stock_data He) as [_ Hr].
  pose proof (last_cells_length stock_data Hr Hw) as Hl.
  do 2 eexists. split; [apply simulate_run; assumption |].
  unfold simulation_table. apply Forall_map, Forall_forall. intros x _.
  cbn [snd]. unfold path_column.
  rewrite (finite_to_R _ Hf).
  rewrite walk_still
    by (try assumption;
        rewrite frame_std_length, daily_returns_columns, <- Hl;
        rewrite (finite_to_R _ Hf) at 1; now rewrite !length_map).
  unfold num_days. now rewrite map_repeat.
Qed.

Lemma steady_volatility (fm : fill_method) :
  frame_std (daily_returns fm steady_prices) = [Fin 0].
Proof.
  rewrite steady_daily_returns. unfold frame_std.
  cbn [columns rows length seq map column nth cells].
  change [Fin (2 / 1 - 1); Fin (4 / 2 - 1)] with (map Fin [2 / 1 - 1; 4 / 2 - 1]%R).
  rewrite std_fin by (cbn; lia).
  replace (ssq [2 / 1 - 1; 4 / 2 - 1])%R with 0%R
    by (unfold ssq, mean, Rsum; cbn [length map fold_right INR]; field).
  unfold Rdiv. now rewrite Rmult_0_l, sqrt_0.
Qed.

Lemma flat_simulation_witness :
  exists sim w',
    simulate (fun n => INR n) pad steady_prices (daily_returns pad steady_prices)
      blank_page = (inr sim, w') /\
    Forall (fun col => snd col = repeat (nth 0 (last_cells steady_prices) NaN) 252) sim.
Proof.
  apply (flat_simulation (fun n => INR n) steady_prices blank_page);
    [reflexivity | quotes | | repeat constructor].
  rewrite steady_volatility. repeat constructor.
Defined.

Lemma mul_nan_r (x : float64) : (x * NaN)%fl = NaN.
Proof. now destruct x. Qed.

Lemma gauss_draw_undefined (sn : nat -> R) (vol : Series) (size n : nat) :
  Forall (fun s => s = NaN) vol ->
  Forall (fun d => d = NaN) (gauss_draw sn vol size n).
Proof.
  unfold gauss_draw. generalize (map (fun i => Fin (sn (n + i))) (seq 0 size)).
  induction vol as [| s vol IH]; intros [| z zs] Hv; cbn [zip_with];
    try constructor.
  - inversion Hv; subst. reflexivity.
  - inversion Hv; subst. now apply IH.
Qed.

Lemma perturb_undefined (price draws : list float64) :
  Forall (fun d => d = NaN) draws ->
  Forall (fun v => v = NaN) (perturb price draws).
Proof.
  unfold perturb. revert draws.
  induction price as [| p price IH]; intros [| d draws] Hd; cbn [map zip_with];
    try constructor.
  - inversion Hd; subst. cbn [add one]. apply mul_nan_r.
  - inversion Hd; subst. now apply IH.
Qed.

Lemma walk_undefined (sn : nat -> R) (vol : Series) (size steps : nat) :
  Forall (fun s => s = NaN) vol ->
  forall (n : nat) (price : list float64),
    Forall (Forall (fun v => v = NaN)) (walk sn vol size steps n price).
Proof.
  intros Hv. induction steps as [| m IH]; intros n price; cbn [walk];
    constructor.
  - apply perturb_undefined. now apply gauss_draw_undefined.
  - apply IH.
Qed.

(** X17: up to pandas 2, with fewer than three price rows the volatility of
    every ticker is undefined, and so is every value of the simulation table;
    the run still raises nothing. *)
Theorem short_history_simulation (standard_normal : nat -> R)
  (stock_data : DataFrame) (w : world) :
  empty stock_data = false ->
  well_formed stock_data ->
  length (rows stock_data) <= 2 ->
  exists sim w',
    simulate standard_normal pad stock_data (daily_returns pad stock_data) w
      = (inr sim, w') /\
    Forall (fun col => snd col = repeat NaN 252) sim.
Proof.
  intros He Hw Hn.
  pose proof (empty_false stock_data He) as [Hc Hr].
  pose proof (last_cells_length stock_data Hr Hw) as Hl.
  pose proof (daily_returns_shorter pad stock_data He Hw) as Hs.
  assert (Hv : Forall (fun s => s = NaN) (frame_std (daily_returns pad stock_data)))
    by (apply frame_std_short; lia).
  do 2 eexists. split; [apply simulate_run; assumption |].
  unfold simulation_table. apply Forall_map, Forall_forall. intros x _.
  cbn [snd]. unfold path_column.
  set (n := cursor w + x * (num_days * length (last_cells stock_data))).
  pose proof (walk_undefined standard_normal _ (length (last_cells stock_data))
                num_days Hv n (last_cells stock_data)) as Hu.
  assert (Hwd : Forall (fun p => length p = length (last_cells stock_data))
            (walk standard_normal (frame_std (daily_returns pad stock_data))
               (length (last_cells stock_data)) num_days n (last_cells stock_data))).
  { apply walk_widths; [| reflexivity].
    now rewrite frame_std_length, daily_returns_columns. }
  assert (Hlen : length (walk standard_normal (frame_std (daily_returns pad stock_data))
               (length (last_cells stock_data)) num_days n (last_cells stock_data)) = 252)
    by apply walk_length.
  revert Hu Hwd Hlen.
  generalize (walk standard_normal (frame_std (daily_returns pad stock_data))
               (length (last_cells stock_data)) num_days n (last_cells stock_data)).
  generalize 252. intros m l. revert m.
  induction l as [| p l IH]; intros m Hu Hwd Hlen; cbn [length] in Hlen; subst m;
    [reflexivity |].
  inversion Hu as [| ? ? Hp Hu']; subst.
  inversion Hwd as [| ? ? Hpw Hwd']; subst. cbn [map repeat]. f_equal.
  - destruct p as [| v p]; [| now inversion Hp].
    cbn [length] in Hpw. rewrite Hl in Hpw. destruct (columns stock_data); easy.
  - now apply IH.
Qed.

Lemma short_history_simulation_witness :
  exists sim w',
    simulate (fun n => INR n) pad one_quote (daily_returns pad one_quote) blank_page
      = (inr sim, w') /\
    Forall (fun col => snd col = repeat NaN 252) sim.
Proof.
  apply (short_history_simulation (fun n => INR n) one_quote blank_page);
    [reflexivity | quotes | cbn; lia].
Defined.

(** X18: the inner loop stops on [count = 251]: whatever the length of the
    range it iterates over, it returns the start price followed by at most
    251 further prices, and has drawn one vector of variates for each of
    them. *)
Theorem inner_loop_cap (standard_normal : nat -> R) (daily_returns : DataFrame)
  (last_price : list float64) (ys : list nat) (price : list float64) (w : world) :
  exists price_series,
    inner_loop standard_normal (frame_std daily_returns) last_price ys [price] 0 w =
      (inr price_series,
       World (cursor w + Nat.min (length ys) 251 * length last_price) (screen w)) /\
    length price_series = 1 + Nat.min (length ys) 251 /\
    hd [] price_series = price.
Proof.
  change [price] with ([] ++ [price]).
  rewrite (inner_loop_run standard_normal daily_returns last_price ys [] price 0 w)
    by (cbn [length]; lia).
  cbv zeta. rewrite Nat.sub_0_r. eexists. split; [reflexivity |]. split.
  - rewrite length_app, walk_length. reflexivity.
  - reflexivity.
Qed.

(** ** The whole run *)

(** X19: the run on a non-empty rectangular price table with [K] tickers
    draws the 21 widgets up to the simulation notice and no error message.
    Up to pandas 2 it then completes without an exception: it adds the chart
    of the 50 paths and its caption, 23 widgets in all, and leaves the
    generator 50 x 252 x K variates further.  Under pandas 3 it stops there on
    the KeyError of line 128, the generator 252 x K variates further. *)
Theorem analyze_completes (standard_normal : nat -> R)
  (yf_download : list string -> date -> date -> DataFrame) (fm : fill_method)
  (tickers : string) (start_date end_date : date) (w : world) :
  let stock_data := get_data yf_download (ticker_list tickers) start_date end_date in
  let K := length (columns stock_data) in
  empty stock_data = false ->
  well_formed stock_data ->
  length (preamble fm stock_data) = 21 /\
  existsb is_error (preamble fm stock_data) = false /\
  match fm with
  | pad =>
      exists sim,
        analyze standard_normal yf_download pad tickers start_date end_date w =
          (inr tt,
           World (cursor w + 50 * (252 * K))
                 (screen w ++ preamble pad stock_data ++ finale sim)) /\
        length sim = 50 /\
        length (preamble pad stock_data ++ finale sim) = 23 /\
        existsb is_error (preamble pad stock_data ++ finale sim) = false
  | no_fill =>
      analyze standard_normal yf_download no_fill tickers start_date end_date w =
        (inl KeyError,
         World (cursor w + 252 * K) (screen w ++ preamble no_fill stock_data))
  end.
Proof.
  intros stock_data K He Hw. pose proof (empty_false stock_data He) as [_ Hr].
  pose proof (last_cells_length stock_data Hr Hw) as Hl. fold K in Hl.
  split; [reflexivity |]. split; [reflexivity |]. destruct fm.
  - eexists. split; [| split; [| split]].
    + unfold analyze. fold stock_data. rewrite He, report_run.
      rewrite simulate_run by assumption. cbn [cursor screen].
      rewrite Hl, <- app_assoc. reflexivity.
    + apply simulation_table_length.
    + reflexivity.
    + reflexivity.
  - rewrite analyze_label_lookup by exact He. fold stock_data. now rewrite Hl.
Qed.

Lemma analyze_completes_witness :
  (exists sim,
     analyze (fun n => INR n) (always sorted_prices) pad "AAPL,TSLA" 0 1 blank_page =
       (inr tt,
        World (0 + 50 * (252 * 2))
              ([] ++ preamble pad sorted_prices ++ finale sim)) /\
     length sim = 50 /\
     length (preamble pad sorted_prices ++ finale sim) = 23 /\
     existsb is_error (preamble pad sorted_prices ++ finale sim) = false) /\
  analyze (fun n => INR n) (always sorted_prices) no_fill "AAPL,TSLA" 0 1 blank_page =
    (inl KeyError, World (0 + 252 * 2) ([] ++ preamble no_fill sorted_prices)).
Proof.
  split.
  - apply (analyze_completes (fun n => INR n) (always sorted_prices) pad
             "AAPL,TSLA" 0 1 blank_page); [reflexivity | quotes].
  - apply (analyze_completes (fun n => INR n) (always sorted_prices) no_fill
             "AAPL,TSLA" 0 1 blank_page); [reflexivity | quotes].
Defined.

(** X20: the third widget of a run on a non-empty table is the raw-data
    preview: a table with the header of the price table and its last five
    rows, or all of them when there are fewer. *)
Theorem preview_last_five (standard_normal : nat -> R)
  (yf_download : list string -> date -> date -> DataFrame) (fm : fill_method)
  (tickers : string) (start_date end_date : date) (w : world) :
  let stock_data := get_data yf_download (ticker_list tickers) start_date end_date in
  empty stock_data = false ->
  exists preview res c rest,
    analyze standard_normal yf_download fm tickers start_date end_date w =
      (res,
       World c (screen w ++ success "Data loaded successfully!"
                         :: subheader "Raw Data Preview (Last 5 Days)"
                         :: dataframe preview :: rest)) /\
    columns preview = columns stock_data /\
    length (rows preview) = Nat.min 5 (length (rows stock_data)) /\
    exists front, rows stock_data = front ++ rows preview.
Proof.
  intros stock_data He. unfold analyze. fold stock_data. rewrite He, report_run.
  pose proof (quiet_simulate standard_normal fm stock_data (daily_returns fm stock_data)
                (World (cursor w) (screen w ++ preamble fm stock_data))) as Hq.
  destruct (simulate _ _ _ _ _) as [[e | sim] [c scr]];
    cbn [snd screen] in Hq; subst scr.
  - exists (tail stock_data), (inl e), c, (skipn 3 (preamble fm stock_data)).
    split; [reflexivity |]. unfold tail. cbn [columns rows].
    split; [reflexivity |]. split; [rewrite length_skipn; lia |].
    exists (firstn (length (rows stock_data) - 5) (rows stock_data)).
    symmetry. apply firstn_skipn.
  - exists (tail stock_data), (inr tt), c,
      (skipn 3 (preamble fm stock_data) ++ finale sim).
    split; [cbn [cursor screen]; rewrite <- app_assoc; reflexivity |].
    unfold tail. cbn [columns rows].
    split; [reflexivity |]. split; [rewrite length_skipn; lia |].
    exists (firstn (length (rows stock_data) - 5) (rows stock_data)).
    symmetry. apply firstn_skipn.
Qed.

Lemma preview_last_five_witness :
  exists preview res c rest,
    analyze (fun n => INR n) (always aapl_prices) pad "AAPL" 0 1 blank_page =
      (res,
       World c ([] ++ success "Data loaded successfully!"
                   :: subheader "Raw Data Preview (Last 5 Days)"
                   :: dataframe preview :: rest)) /\
    columns preview = columns aapl_prices /\
    length (rows preview) = Nat.min 5 (length (rows aapl_prices)) /\
    exists front, rows aapl_prices = front ++ rows preview.
Proof.
  apply (preview_last_five (fun n => INR n) (always aapl_prices) pad "AAPL" 0 1
           blank_page).
  reflexivity.
Defined.

(** X21: the success branch relies on the guard for its last-row lookup: run
    on a table without rows it draws the 21 widgets up to the simulation
    notice and then stops on an IndexError, having drawn no variate. *)
Theorem report_needs_rows (standard_normal : nat -> R) (fm : fill_method)
  (stock_data : DataFrame) (w : world) :
  rows stock_data = [] ->
  report standard_normal fm stock_data w =
    (inl IndexError, World (cursor w) (screen w ++ preamble fm stock_data)).
Proof.
  intros Hr. rewrite report_run. unfold simulate, iloc_last. rewrite Hr.
  reflexivity.
Qed.

Lemma report_needs_rows_witness :
  report (fun _ => 0%R) pad header_only blank_page =
    (inl IndexError, World 0 ([] ++ preamble pad header_only)).
Proof. apply (report_needs_rows (fun _ => 0%R) pad header_only blank_page). reflexivity. Defined.
